(** * The generic repository of bpa-v2 (core/database/repositories.py)

    A shallow embedding of [Repository] and of the part of the SQLAlchemy
    session it drives, followed by the properties of the data-access
    contract.

    The repository is a thin layer over [sqlalchemy.orm.Session].  The session
    is not code of the repository; it is modelled here as a transactional
    table:
    - [rows] is the table as seen inside the open transaction, in the order
      an unordered SELECT returns it (rows are inserted at the end and
      updated in place);
    - [committed] is the durable table, which [rollback] restores;
    - [pending] and [deleted] are the unit of work (objects given to
      [session.add] and [session.delete] and not flushed yet);
    - [faults] schedules failures of the underlying store: every statement
      sent to the store consumes one entry, and [true] makes it fail.

    The methods of [Repository] are written in a state-and-exception monad
    over that session, in the order of the Python statements. *)

From stdpp Require Import gmap strings list fin_maps sorting.
From Stdlib Require Import ZArith Lia.

Local Open Scope Z_scope.

(** ** Values *)

(** The scalars a column of the models holds (Integer, String/Text, Boolean,
    DateTime) and Python's [None]. *)
Inductive scalar : Type :=
  | SNull
  | SInt (z : Z)
  | SStr (s : string)
  | SBool (b : bool)
  | STime (t : Z).

(** A Python value of a [data] or [filters] dictionary: a scalar, or a list
    of scalars ([isinstance(value, list)]). *)
Inductive value : Type :=
  | Scalar (v : scalar)
  | Seq (l : list scalar).

#[global] Instance scalar_eq_dec : EqDecision scalar.
Proof. solve_decision. Defined.

#[global] Instance value_eq_dec : EqDecision value.
Proof. solve_decision. Defined.

Abbreviation None_ := (Scalar SNull).

(** An object of the model class: its attributes by name.  [data] and
    [filters] dictionaries have the same shape. *)
Abbreviation entity := (gmap string value).
Abbreviation dict := (gmap string value).

(** [getattr(entity, key)] for a mapped attribute: an attribute that was
    never set reads as [None]. *)
Definition getattr (e : entity) (key : string) : value :=
  default None_ (e !! key).

(** ** The model class *)

(** What the repository uses of [model_class]: a subclass of [BaseModel]
    (base_model.py), which brings the columns [id], [created_at] and
    [updated_at], with the columns the subclass declares. *)
Record model_class : Type := {
  columns : list string;                (* Column(...) attributes of the class *)
  column_default : gmap string scalar;  (* Column(default=...) *)
  not_null : list string;               (* Column(nullable=False) *)
  unique : list string                  (* Column(unique=True) *)
}.

Definition base_columns : list string := ["id"; "created_at"; "updated_at"].

Definition attrs (cls : model_class) : list string :=
  base_columns ++ columns cls.

(** [hasattr(entity, key)] (and [hasattr(model_class, key)]), on the mapped
    columns: the methods and relationships of a class, which are attributes
    too but are not stored, are left out. *)
Definition hasattr (cls : model_class) (key : string) : bool :=
  bool_decide (key ∈ attrs cls).

(** ** Exceptions and the session monad *)

Inductive exn : Type :=
  | DatabaseError        (* core/exceptions/exceptions.py *)
  | StoreFault           (* the store failed (sqlalchemy OperationalError) *)
  | IntegrityError       (* a constraint of the table is violated *)
  | DataError            (* a value the store cannot bind or accept *)
  | AttributeError       (* getattr on a name the class does not have *)
  | TypeError            (* the constructor got an unknown keyword *)
  | InvalidRequestError. (* refresh of an object with no row *)

Inductive result (A : Type) : Type :=
  | Ok (a : A)
  | Err (e : exn).
Arguments Ok {A} a.
Arguments Err {A} e.

Record session : Type := {
  rows : list entity;
  committed : list entity;
  pending : list entity;
  deleted : list value;
  next_id : Z;
  clock : Z;
  faults : list bool
}.

Definition M (A : Type) : Type := session → result A * session.

Definition ret {A} (a : A) : M A := fun s => (Ok a, s).

Definition bind {A B} (m : M A) (k : A → M B) : M B :=
  fun s => match m s with
           | (Ok a, s') => k a s'
           | (Err e, s') => (Err e, s')
           end.

Definition raise {A} (e : exn) : M A := fun s => (Err e, s).

(** [try: m except Exception as e: h e] *)
Definition try_except {A} (m : M A) (h : exn → M A) : M A :=
  fun s => match m s with
           | (Ok a, s') => (Ok a, s')
           | (Err e, s') => h e s'
           end.

Notation "x <- m ;; k" := (bind m (fun x => k))
  (at level 100, m at next level, right associativity).
Notation "m ;; k" := (bind m (fun _ => k))
  (at level 100, right associativity).

(** [for x in xs: body x], collecting what the body yields. *)
Fixpoint for_each {A B} (body : A → M B) (xs : list A) : M (list B) :=
  match xs with
  | [] => ret []
  | x :: xs' => y <- body x ;; ys <- for_each body xs' ;; ret (y :: ys)
  end.

(** ** The table and its constraints *)

(** The primary key of an object. *)
Definition pk (e : entity) : value := getattr e "id".

(** The value an INSERT writes in column [c] when the object has none:
    the next value of the sequence for [id] (autoincrement),
    [datetime.utcnow] for both timestamps, the declared default of the
    column, or NULL. *)
Definition column_fill (cls : model_class) (now nid : Z) (c : string) : value :=
  if decide (c = "id") then Scalar (SInt nid)
  else if decide (c = "created_at") then Scalar (STime now)
  else if decide (c = "updated_at") then Scalar (STime now)
  else Scalar (default SNull (column_default cls !! c)).

(** The row an INSERT writes for the object [e]: one value per column; an
    attribute that is unset or [None] takes the fill value. *)
Definition insert_row (cls : model_class) (now nid : Z) (e : entity) : entity :=
  foldr (fun c row =>
           <[c := if decide (getattr e c = None_)
                  then column_fill cls now nid c else getattr e c]> row)
        ∅ (attrs cls).

Definition is_scalar (v : value) : bool :=
  match v with Scalar _ => true | Seq _ => false end.

(** The columns are scalar-typed, so a list cannot be bound, and the
    primary key is an Integer column. *)
Definition bindable (cls : model_class) (r : entity) : bool :=
  forallb (fun c => is_scalar (getattr r c)) (attrs cls)
  && match pk r with Scalar (SInt _) => true | _ => false end.

(** [nullable=False]: the three base columns and the declared ones. *)
Definition not_null_ok (cls : model_class) (r : entity) : bool :=
  forallb (fun c => negb (bool_decide (getattr r c = None_)))
          (base_columns ++ not_null cls).

(** The primary key and the [unique=True] columns: no other row of the table
    has the same non-NULL value. *)
Definition unique_ok (cls : model_class) (others : list entity) (r : entity) : bool :=
  forallb (fun c => bool_decide (getattr r c = None_)
                    || forallb (fun r' => negb (bool_decide (getattr r' c = getattr r c)))
                               others)
          ("id" :: unique cls).

(** What the store checks when it writes row [r] next to the rows [others]. *)
Definition check_row (cls : model_class) (others : list entity) (r : entity) : result unit :=
  if negb (bindable cls r) then Err DataError
  else if negb (not_null_ok cls r && unique_ok cls others r) then Err IntegrityError
  else Ok tt.

(** INSERT of the pending objects, in the order they were added.  Yields
    the table, the rows written (the state the flush leaves on the objects)
    and the next value of the sequence. *)
Fixpoint insert_all (cls : model_class) (now nid : Z) (table new : list entity)
  : result (list entity * list entity * Z) :=
  match new with
  | [] => Ok (table, [], nid)
  | e :: new' =>
      let r := insert_row cls now nid e in
      let nid' := if decide (pk e = None_) then nid + 1 else nid in
      match check_row cls table r with
      | Err x => Err x
      | Ok _ =>
          match insert_all cls now nid' (table ++ [r]) new' with
          | Err x => Err x
          | Ok (table', written, nid'') => Ok (table', r :: written, nid'')
          end
      end
  end.

(** UPDATE of the loaded objects whose attributes were changed: [(k, e)] is
    the object loaded from the row of primary key [k], in its new state. *)
Fixpoint update_all (cls : model_class) (table : list entity)
    (dirty : list (value * entity)) : result (list entity) :=
  match dirty with
  | [] => Ok table
  | (k, e) :: dirty' =>
      match check_row cls (filter (fun r => pk r ≠ k) table) e with
      | Err x => Err x
      | Ok _ =>
          update_all cls ((fun r => if decide (pk r = k) then e else r) <$> table) dirty'
      end
  end.

(** DELETE of the rows whose primary key was given to [session.delete]. *)
Definition delete_all (keys : list value) (table : list entity) : list entity :=
  filter (fun r => pk r ∉ keys) table.

(** ** Session primitives *)

(** A statement is sent to the store: time passes, and the store fails when
    the schedule says so. *)
Definition execute : M unit := fun s =>
  let s' := {| rows := rows s; committed := committed s; pending := pending s;
               deleted := deleted s; next_id := next_id s;
               clock := clock s + 1; faults := tail (faults s) |} in
  match faults s with
  | true :: _ => (Err StoreFault, s')
  | _ => (Ok tt, s')
  end.

(** [datetime.utcnow()] *)
Definition utcnow : M value := fun s => (Ok (Scalar (STime (clock s))), s).

(** [session.add(entity)] *)
Definition session_add (e : entity) : M unit := fun s =>
  (Ok tt, {| rows := rows s; committed := committed s;
             pending := pending s ++ [e]; deleted := deleted s;
             next_id := next_id s; clock := clock s; faults := faults s |}).

(** [session.delete(entity)] *)
Definition session_delete (e : entity) : M unit := fun s =>
  (Ok tt, {| rows := rows s; committed := committed s; pending := pending s;
             deleted := deleted s ++ [pk e];
             next_id := next_id s; clock := clock s; faults := faults s |}).

(** [session.flush()].  Python's flush works on the objects the session
    tracks and changes them in place; here the loaded objects the caller has
    changed with [setattr] are passed as [dirty], and the states the flush
    leaves on the pending objects are returned, in the order they were added.
    With nothing to write, no statement is sent. *)
Definition session_flush (cls : model_class) (dirty : list (value * entity))
  : M (list entity) := fun s =>
  match pending s, dirty, deleted s with
  | [], [], [] => (Ok [], s)
  | _, _, _ =>
      match execute s with
      | (Err x, s1) => (Err x, s1)
      | (Ok _, s1) =>
          match insert_all cls (clock s1) (next_id s1) (rows s1) (pending s1) with
          | Err x => (Err x, s1)
          | Ok (t1, written, nid) =>
              match update_all cls t1 dirty with
              | Err x => (Err x, s1)
              | Ok t2 =>
                  (Ok written,
                   {| rows := delete_all (deleted s1) t2; committed := committed s1;
                      pending := []; deleted := []; next_id := nid;
                      clock := clock s1; faults := faults s1 |})
              end
          end
      end
  end.

(** [session.rollback()]: the unit of work is dropped and the transaction
    restarts from the durable table.  The sequence, the clock and the fault
    schedule are not transactional. *)
Definition session_rollback : M unit := fun s =>
  (Ok tt, {| rows := committed s; committed := committed s; pending := [];
             deleted := []; next_id := next_id s; clock := clock s;
             faults := faults s |}).

(** [session.commit()]: flush, then COMMIT. *)
Definition session_commit (cls : model_class) : M unit :=
  session_flush cls [] ;;
  execute ;;
  fun s => (Ok tt, {| rows := rows s; committed := rows s; pending := pending s;
                      deleted := deleted s; next_id := next_id s;
                      clock := clock s; faults := faults s |}).

(** [session.refresh(entity)]: the attributes are read again from the row of
    the object's primary key. *)
Definition session_refresh (e : entity) : M entity :=
  execute ;;
  fun s => match List.find (fun r => bool_decide (pk r = pk e)) (rows s) with
           | Some r => (Ok r, s)
           | None => (Err InvalidRequestError, s)
           end.

(** ** Queries *)

(** A criterion on a column: [column == v] or [column.in_(vs)]. *)
Inductive condition : Type :=
  | CEq (col : string) (v : scalar)
  | CIn (col : string) (vs : list scalar).

(** SQL's reading of a criterion on a row: [column == None] is IS NULL; a
    NULL column is in no list. *)
Definition holds (c : condition) (r : entity) : bool :=
  match c with
  | CEq col v => bool_decide (getattr r col = Scalar v)
  | CIn col vs =>
      match getattr r col with
      | Scalar SNull => false
      | Scalar v => bool_decide (v ∈ vs)
      | Seq _ => false
      end
  end.

(** [and_ of the conditions] *)
Definition and_ (conditions : list condition) (r : entity) : bool :=
  forallb (fun c => holds c r) conditions.

(** The order of ORDER BY on a column: by value inside a type, NULL after
    every value (PostgreSQL's NULLS LAST for ASC). *)
Definition scalar_rank (v : scalar) : Z :=
  match v with
  | SBool _ => 0 | SInt _ => 1 | SStr _ => 2 | STime _ => 3 | SNull => 4
  end.

Definition scalar_le (a b : scalar) : bool :=
  match a, b with
  | SInt x, SInt y => x <=? y
  | SStr x, SStr y => String.leb x y
  | SBool x, SBool y => implb x y
  | STime x, STime y => x <=? y
  | _, _ => scalar_rank a <=? scalar_rank b
  end.

Definition sort_key (col : string) (r : entity) : scalar :=
  match getattr r col with Scalar v => v | Seq _ => SNull end.

(** [asc(column)] and [desc(column)] as relations on rows. *)
Definition row_le (col : string) (descending : bool) (r1 r2 : entity) : Prop :=
  if descending
  then scalar_le (sort_key col r2) (sort_key col r1) = true
  else scalar_le (sort_key col r1) (sort_key col r2) = true.

#[global] Instance row_le_dec col descending r1 r2 :
  Decision (row_le col descending r1 r2).
Proof. unfold row_le. destruct descending; apply _. Defined.

Record query : Type := {
  q_where : list condition;
  q_order : option (string * bool);   (* column, descending *)
  q_limit : option Z;
  q_offset : option Z
}.

(** [session.query(model_class)] *)
Definition session_query : query :=
  {| q_where := []; q_order := None; q_limit := None; q_offset := None |}.

(** [query.filter(and_ of the conditions)] *)
Definition q_filter (conditions : list condition) (q : query) : query :=
  {| q_where := q_where q ++ conditions; q_order := q_order q;
     q_limit := q_limit q; q_offset := q_offset q |}.

(** [query.order_by(order_func(column))] *)
Definition q_order_by (col : string) (descending : bool) (q : query) : query :=
  {| q_where := q_where q; q_order := Some (col, descending);
     q_limit := q_limit q; q_offset := q_offset q |}.

(** [query.limit(n)] and [query.offset(n)] *)
Definition q_set_limit (n : Z) (q : query) : query :=
  {| q_where := q_where q; q_order := q_order q;
     q_limit := Some n; q_offset := q_offset q |}.

Definition q_set_offset (n : Z) (q : query) : query :=
  {| q_where := q_where q; q_order := q_order q;
     q_limit := q_limit q; q_offset := Some n |}.

(** The rows a SELECT of [q] returns on a table: WHERE, then ORDER BY, then
    OFFSET, then LIMIT. *)
Definition ordered (order : option (string * bool)) (l : list entity) : list entity :=
  match order with
  | Some (col, descending) => merge_sort (row_le col descending) l
  | None => l
  end.

Definition paginate (limit offset : option Z) (l : list entity) : list entity :=
  let l' := match offset with Some n => drop (Z.to_nat n) l | None => l end in
  match limit with Some n => take (Z.to_nat n) l' | None => l' end.

Definition select (q : query) (table : list entity) : list entity :=
  paginate (q_limit q) (q_offset q)
           (ordered (q_order q) (filter (fun r => and_ (q_where q) r = true) table)).

Definition negative (n : option Z) : bool :=
  match n with Some z => z <? 0 | None => false end.

Section Repository.

(** [self.model_class] *)
Variable cls : model_class.

(** [getattr(self.model_class, key)]: the column, or AttributeError. *)
Definition column (key : string) : M string :=
  if hasattr cls key then ret key else raise AttributeError.

(** [self.model_class] applied to the keywords of [data]: the declarative constructor sets the given
    attributes and refuses a keyword the class does not have. *)
Definition construct (data : dict) : M entity :=
  if forallb (fun kv => hasattr cls kv.1) (map_to_list data)
  then ret data else raise TypeError.

(** [query.all()]: pending changes are flushed first (autoflush); the
    store refuses a negative LIMIT or OFFSET. *)
Definition query_all (q : query) : M (list entity) :=
  session_flush cls [] ;;
  execute ;;
  if negative (q_limit q) || negative (q_offset q) then raise DataError
  else fun s => (Ok (select q (rows s)), s).

(** [query.first()] *)
Definition query_first (q : query) : M (option entity) :=
  l <- query_all (q_set_limit 1 q) ;;
  ret (head l).

(** [query.count()] (and [query.scalar()] of a count) *)
Definition query_count (q : query) : M Z :=
  l <- query_all q ;;
  ret (Z.of_nat (length l)).

(** [query.delete(synchronize_session=False)]: one DELETE of the rows
    that satisfy the criteria. *)
Definition query_delete (q : query) : M unit :=
  session_flush cls [] ;;
  execute ;;
  fun s => (Ok tt,
            {| rows := filter (fun r => and_ (q_where q) r ≠ true) (rows s);
               committed := committed s; pending := pending s;
               deleted := deleted s; next_id := next_id s;
               clock := clock s; faults := faults s |}).

(** The loop that turns a filter dictionary into criteria:
    [in_] for a list, [==] otherwise. *)
Definition conditions_of (filters : dict) : M (list condition) :=
  for_each (fun kv : string * value =>
              col <- column kv.1 ;;
              ret (match kv.2 with
                   | Seq l => CIn col l
                   | Scalar v => CEq col v
                   end))
           (map_to_list filters).

(** The loop [for key, value in data.items(): if hasattr(entity, key):
    setattr(entity, key, value)]. *)
Definition set_fields (data : dict) (e : entity) : entity :=
  map_fold (fun key v acc => if hasattr cls key then <[key := v]> acc else acc)
           e data.

(** *** Repository.get_by_id *)
Definition get_by_id (entity_id : Z) : M (option entity) :=
  try_except
    (query_first (q_filter [CEq "id" (SInt entity_id)] session_query))
    (fun _ => raise DatabaseError).

(** *** Repository.get_all *)
Definition get_all : M (list entity) :=
  try_except (query_all session_query) (fun _ => raise DatabaseError).

(** *** Repository.get_by_filters *)
Definition get_by_filters (filters : dict) (order_by : option string)
    (limit offset : option Z) (descending : bool) : M (list entity) :=
  try_except
    (let q := session_query in
     q <- (if bool_decide (filters ≠ ∅)
           then conditions <- conditions_of filters ;;
                ret (q_filter conditions q)
           else ret q) ;;
     q <- (match order_by with
           | Some f =>
               if bool_decide (f ≠ "")
               then col <- column f ;; ret (q_order_by col descending q)
               else ret q
           | None => ret q
           end) ;;
     let q := match limit with
              | Some n => if bool_decide (n ≠ 0) then q_set_limit n q else q
              | None => q
              end in
     let q := match offset with
              | Some n => if bool_decide (n ≠ 0) then q_set_offset n q else q
              | None => q
              end in
     query_all q)
    (fun _ => raise DatabaseError).

(** *** Repository.count *)
Definition count (filters : option dict) : M Z :=
  try_except
    (let q := session_query in
     q <- (match filters with
           | Some f =>
               if bool_decide (f ≠ ∅)
               then conditions <- conditions_of f ;;
                    ret (q_filter conditions q)
               else ret q
           | None => ret q
           end) ;;
     query_count q)
    (fun _ => raise DatabaseError).

(** The handler of every mutating method:
    [except Exception: self.session.rollback(); raise DatabaseError(...)]. *)
Definition rollback_and_raise {A} (_ : exn) : M A :=
  session_rollback ;; raise DatabaseError.

(** *** Repository.create
    [data] is a dictionary or an instance of the model class.  The object
    just added is the last pending one; after the flush it carries the
    generated values. *)
Definition create (data : dict + entity) : M entity :=
  try_except
    (entity <- (match data with
                | inl d => construct d
                | inr e => ret e
                end) ;;
     session_add entity ;;
     flushed <- session_flush cls [] ;;
     entity <- (match last flushed with
                | Some e => ret e
                | None => raise InvalidRequestError
                end) ;;
     session_refresh entity)
    rollback_and_raise.

(** *** Repository.bulk_create
    The objects of the batch are the last ones added to the session, so
    their states after the flush are the last ones the flush returns. *)
Definition bulk_create (items : list dict) : M (list entity) :=
  try_except
    (entities <- for_each (fun item =>
                             entity <- construct item ;;
                             session_add entity ;;
                             ret entity) items ;;
     flushed <- session_flush cls [] ;;
     let entities :=
       drop (length flushed - length entities)%nat flushed in
     for_each session_refresh entities)
    rollback_and_raise.

(** *** Repository.update
    The object loaded by [get_by_id] is the one changed and flushed; its
    class derives from [BaseModel], so [updated_at] is always set. *)
Definition update (entity_id : Z) (data : dict) : M (option entity) :=
  try_except
    (entity <- get_by_id entity_id ;;
     match entity with
     | None => ret None
     | Some entity =>
         let key := pk entity in
         let entity := set_fields data entity in
         now <- utcnow ;;
         let entity := <["updated_at" := now]> entity in
         session_flush cls [(key, entity)] ;;
         entity <- session_refresh entity ;;
         ret (Some entity)
     end)
    rollback_and_raise.

(** *** Repository.delete *)
Definition delete (entity_id : Z) : M bool :=
  try_except
    (entity <- get_by_id entity_id ;;
     match entity with
     | None => ret false
     | Some entity =>
         session_delete entity ;;
         session_flush cls [] ;;
         ret true
     end)
    rollback_and_raise.

(** *** Repository.delete_many *)
Definition delete_many (filter_dict : dict) : M Z :=
  try_except
    (conditions <- conditions_of filter_dict ;;
     let q := q_filter conditions session_query in
     n <- query_count q ;;
     query_delete q ;;
     session_flush cls [] ;;
     ret n)
    rollback_and_raise.

(** [{field: data[field] for field in unique_fields if field in data}] *)
Definition unique_filters (unique_fields : list string) (data : dict) : dict :=
  foldl (fun acc field =>
           match data !! field with
           | Some v => <[field := v]> acc
           | None => acc
           end)
        ∅ unique_fields.

(** *** Repository.upsert *)
Definition upsert (unique_fields : list string) (data : dict)
  : M (entity * bool) :=
  try_except
    (let filters := unique_filters unique_fields data in
     existing <- get_by_filters filters None None None false ;;
     match existing with
     | entity :: _ =>
         let key := pk entity in
         let entity := set_fields data entity in
         now <- utcnow ;;
         let entity := <["updated_at" := now]> entity in
         session_flush cls [(key, entity)] ;;
         entity <- session_refresh entity ;;
         ret (entity, false)
     | [] =>
         entity <- create (inl data) ;;
         ret (entity, true)
     end)
    rollback_and_raise.

(** The body of the loop of [bulk_upsert], on the three accumulators. *)
Definition bulk_upsert_step (unique_fields : list string)
    (acc : list entity * Z * Z) (item : dict) : M (list entity * Z * Z) :=
  let '(entities, created, updated) := acc in
  r <- upsert unique_fields item ;;
  let '(entity, is_new) := r in
  ret (if is_new : bool
       then (entities ++ [entity], created + 1, updated)
       else (entities ++ [entity], created, updated + 1)).

(** [for item in items: acc = step acc item] *)
Fixpoint for_fold {A S} (step : S → A → M S) (acc : S) (xs : list A) : M S :=
  match xs with
  | [] => ret acc
  | x :: xs' => acc' <- step acc x ;; for_fold step acc' xs'
  end.

(** *** Repository.bulk_upsert *)
Definition bulk_upsert (unique_fields : list string) (items : list dict)
  : M (list entity * Z * Z) :=
  try_except
    (for_fold (bulk_upsert_step unique_fields) ([], 0, 0) items)
    rollback_and_raise.

(** *** Repository.commit and Repository.rollback *)
Definition commit : M unit :=
  try_except (session_commit cls) rollback_and_raise.

Definition rollback : M unit :=
  try_except session_rollback (fun _ => raise DatabaseError).

End Repository.

(** ** A model class and a session to run the repository on *)

(** [Configuracao] of core/models/base_models.py. *)
Definition Configuracao : model_class :=
  {| columns := ["chave"; "valor"; "descricao"; "tipo"; "grupo"; "nivel"; "editavel"];
     column_default :=
       {[ "tipo" := SStr "string"; "nivel" := SStr "sistema"; "editavel" := SBool true ]};
     not_null := ["chave"; "tipo"; "nivel"; "editavel"];
     unique := ["chave"] |}.

(** An empty table in a session with no failure scheduled. *)
Definition empty_session : session :=
  {| rows := []; committed := []; pending := []; deleted := [];
     next_id := 1; clock := 100; faults := [] |}.

Definition run {A} (m : M A) (s : session) : result A := (m s).1.
Definition exec {A} (m : M A) (s : session) : session := (m s).2.

Definition cfg (chave valor : string) : dict :=
  {[ "chave" := Scalar (SStr chave); "valor" := Scalar (SStr valor) ]}.

(** ** Vocabulary of the contract *)

(** Nothing is waiting in the unit of work: the state between two calls of
    the repository. *)
Definition clean (s : session) : Prop := pending s = [] ∧ deleted s = [].

(** The next statement sent to the store fails. *)
Definition next_fault (s : session) : bool :=
  match faults s with true :: _ => true | _ => false end.

(** The store answers the next [n] statements. *)
Definition healthy (n : nat) (s : session) : Prop :=
  ∀ i, (i < n)%nat → faults s !! i ≠ Some true.

(** The session after one statement. *)
Definition advance (s : session) : session :=
  {| rows := rows s; committed := committed s; pending := pending s;
     deleted := deleted s; next_id := next_id s;
     clock := clock s + 1; faults := tail (faults s) |}.

(** [s'] is [s] after a rollback: the transaction sees the durable table of
    [s] again and the unit of work is empty. *)
Definition rolled_back (s s' : session) : Prop :=
  rows s' = committed s ∧ committed s' = committed s ∧ clean s'.

(** The row [get_by_id] finds in a table. *)
Definition lookup_id (entity_id : Z) (table : list entity) : option entity :=
  List.find (fun r => bool_decide (pk r = Scalar (SInt entity_id))) table.

(** A filter dictionary read on a row: equality for a scalar, membership
    for a list, all entries together. *)
Definition matches (filters : dict) (r : entity) : Prop :=
  ∀ key v, filters !! key = Some v →
    match v with
    | Scalar x => getattr r key = Scalar x
    | Seq l => ∃ x, getattr r key = Scalar x ∧ x ≠ SNull ∧ x ∈ l
    end.

(** The rows of primary key [key] are replaced by [e], where they stand. *)
Definition replace_row (key : value) (e : entity) (table : list entity)
  : list entity :=
  (fun r => if decide (pk r = key) then e else r) <$> table.

(** The method leaves the durable table alone. *)
Definition keeps_committed {A} (m : M A) : Prop :=
  ∀ s, committed (m s).2 = committed s.

(** When the method fails, it raises DatabaseError and leaves the session
    rolled back. *)
Definition fails_rolled_back {A} (m : M A) : Prop :=
  ∀ s e s', m s = (Err e, s') → e = DatabaseError ∧ rolled_back s s'.

(** The session with another table in its transaction. *)
Definition set_rows (table : list entity) (s : session) : session :=
  {| rows := table; committed := committed s; pending := pending s;
     deleted := deleted s; next_id := next_id s;
     clock := clock s; faults := faults s |}.

(** What [set_fields] leaves in attribute [k] of an object that held [old]:
    the value of [data] when [data] has the key and the class has the
    attribute, what the object had otherwise. *)
Definition field_after (cls : model_class) (data : dict) (old : entity)
    (k : string) : option value :=
  if hasattr cls k
  then match data !! k with Some v => Some v | None => old !! k end
  else old !! k.

(** The criterion the loop of [conditions_of] builds from one entry. *)
Definition condition_of (kv : string * value) : condition :=
  match kv.2 with
  | Seq l => CIn kv.1 l
  | Scalar v => CEq kv.1 v
  end.

(** The WHERE clause built from a filter dictionary, on a row. *)
Definition matchesb (filters : dict) (r : entity) : bool :=
  and_ (condition_of <$> map_to_list filters) r.

(** Every key of the dictionary is an attribute of the class. *)
Definition known (cls : model_class) (d : dict) : Prop :=
  ∀ k v, d !! k = Some v → hasattr cls k = true.

(** The limit or offset [get_by_filters] passes on: [if limit:] skips
    [None] and 0 alike. *)
Definition effective (n : option Z) : option Z :=
  match n with
  | Some z => if bool_decide (z ≠ 0) then Some z else None
  | None => None
  end.

(** The ordering [get_by_filters] passes on: [if order_by:] skips [None]
    and the empty name alike. *)
Definition effective_order (order_by : option string) (descending : bool)
  : option (string * bool) :=
  match order_by with
  | Some f => if bool_decide (f ≠ "") then Some (f, descending) else None
  | None => None
  end.

(** The counts [bulk_upsert] keeps, read off the results of the upserts. *)
Definition created_count (rs : list (entity * bool)) : Z :=
  Z.of_nat (length (filter (fun r : entity * bool => r.2 = true) rs)).

Definition updated_count (rs : list (entity * bool)) : Z :=
  Z.of_nat (length (filter (fun r : entity * bool => r.2 = false) rs)).

(** The lookup of [upsert] for [item] finds an entity in session [s]. *)
Definition has_match (cls : model_class) (unique_fields : list string)
    (item : dict) (s : session) : bool :=
  match run (get_by_filters cls (unique_filters unique_fields item)
                            None None None false) s with
  | Ok (_ :: _) => true
  | _ => false
  end.

(** The number of items of a batch that have a match in session [s], the
    session before the batch is processed. *)
Definition preexisting (cls : model_class) (unique_fields : list string)
    (items : list dict) (s : session) : Z :=
  Z.of_nat (length (filter (fun item => has_match cls unique_fields item s = true)
                           items)).

(** The result of [get_by_filters] if the bounds were applied as given. *)
Definition bounds_as_given (filters : dict) (order_by : option string)
    (limit offset : option Z) (descending : bool) (table : list entity)
  : list entity :=
  paginate limit offset
    (ordered (effective_order order_by descending)
       (filter (fun r => matchesb filters r = true) table)).

(** A session whose table holds one [Configuracao]. *)
Definition one_row_session : session :=
  exec (create Configuracao (inl (cfg "a" "1"))) empty_session.

(** The row [create] writes for [cfg "a" "1"] in the empty session. *)
Definition row_a : entity := insert_row Configuracao 101 1 (cfg "a" "1").

(** A session whose table holds two [Configuracao], "b" before "a". *)
Definition two_row_session : session :=
  exec (bulk_create Configuracao [cfg "b" "2"; cfg "a" "1"]) empty_session.

(** The method returns, on session [s]. *)
Definition succeeds {A} (m : M A) (s : session) : bool :=
  match run m s with Ok _ => true | Err _ => false end.

#[global] Instance exn_eq_dec : EqDecision exn.
Proof. solve_decision. Defined.

#[global] Instance result_eq_dec {A} `{EqDecision A} : EqDecision (result A).
Proof. solve_decision. Defined.

#[global] Instance session_eq_dec : EqDecision session.
Proof. solve_decision. Defined.

(** ** Vocabulary for the read methods and for [BaseModel] *)

(** [s'] has the table, the durable table and the empty unit of work of
    [s]: only the clock and the fault schedule may differ. *)
Definition same_table (s s' : session) : Prop :=
  rows s' = rows s ∧ committed s' = committed s ∧ clean s'.

(** The method leaves the table of a clean session as it is, whether it
    returns or raises. *)
Definition read_only {A} (m : M A) : Prop :=
  ∀ s, clean s → same_table s (exec m s).

(** The method hands back a clean session when it is given one, whether it
    returns or raises. *)
Definition keeps_clean {A} (m : M A) : Prop :=
  ∀ s, clean s → clean (exec m s).

(** [BaseModel.to_dict] (base_model.py): one entry per column of the table,
    with the value of the attribute. *)
Definition to_dict (cls : model_class) (e : entity) : dict :=
  foldr (fun c acc => <[c := getattr e c]> acc) ∅ (attrs cls).

(** [BaseModel.from_dict] (base_model.py): the constructor applied to the
    entries of [data] whose key is a column of the table. *)
Definition from_dict (cls : model_class) (data : dict) : M entity :=
  construct cls (filter (fun kv : string * value => kv.1 ∈ attrs cls) data).

(** * Properties *)

(** ** The monad and the primitives *)

Lemma execute_eq s :
  execute s = (if next_fault s then Err StoreFault else Ok tt, advance s).
Proof.
  unfold execute, next_fault, advance.
  destruct (faults s) as [|[] ?]; reflexivity.
Qed.

Lemma healthy_next n s : healthy (S n) s → next_fault s = false.
Proof.
  intros H. unfold next_fault.
  destruct (faults s) as [|[] ?] eqn:E; try reflexivity.
  exfalso. apply (H 0%nat); [lia|]. rewrite E. reflexivity.
Qed.

Lemma healthy_advance n s : healthy (S n) s → healthy n (advance s).
Proof.
  intros H i Hi. unfold advance; simpl.
  specialize (H (S i) ltac:(lia)).
  destruct (faults s); simpl in *; [rewrite lookup_nil; discriminate | exact H].
Qed.

Lemma healthy_le n m s : (m <= n)%nat → healthy n s → healthy m s.
Proof. intros Hle H i Hi. apply H. lia. Qed.

Lemma healthy_nil n s : faults s = [] → healthy n s.
Proof. intros E i _. rewrite E, lookup_nil. discriminate. Qed.

Lemma clean_advance s : clean s → clean (advance s).
Proof. intros [? ?]; split; assumption. Qed.

Section Primitives.

Variable cls : model_class.

Lemma session_flush_clean s : clean s → session_flush cls [] s = (Ok [], s).
Proof. intros [Hp Hd]. unfold session_flush. rewrite Hp, Hd. reflexivity. Qed.

Lemma query_all_eq q s :
  clean s →
  query_all cls q s =
    (if next_fault s then Err StoreFault
     else if negative (q_limit q) || negative (q_offset q) then Err DataError
     else Ok (select q (rows s)),
     advance s).
Proof.
  intros Hc. unfold query_all, bind.
  rewrite (session_flush_clean s Hc), execute_eq.
  destruct (next_fault s); [reflexivity|].
  destruct (negative (q_limit q) || negative (q_offset q)); reflexivity.
Qed.

(** *** Nothing but a commit changes the durable table *)

Lemma kc_ret {A} (a : A) : keeps_committed (ret a).
Proof. intros s; reflexivity. Qed.

Lemma kc_raise {A} e : keeps_committed (@raise A e).
Proof. intros s; reflexivity. Qed.

Lemma kc_bind {A B} (m : M A) (k : A → M B) :
  keeps_committed m → (∀ a, keeps_committed (k a)) → keeps_committed (bind m k).
Proof.
  intros Hm Hk s. unfold bind. specialize (Hm s).
  destruct (m s) as [[a|e] s1]; simpl in *; [|assumption].
  rewrite Hk. assumption.
Qed.

Lemma kc_try {A} (m : M A) (h : exn → M A) :
  keeps_committed m → (∀ e, keeps_committed (h e)) →
  keeps_committed (try_except m h).
Proof.
  intros Hm Hh s. unfold try_except. specialize (Hm s).
  destruct (m s) as [[a|e] s1]; simpl in *; [assumption|].
  rewrite Hh. assumption.
Qed.

Lemma kc_execute : keeps_committed execute.
Proof. intros s. rewrite execute_eq. reflexivity. Qed.

Lemma kc_utcnow : keeps_committed utcnow.
Proof. intros s; reflexivity. Qed.

Lemma kc_add e : keeps_committed (session_add e).
Proof. intros s; reflexivity. Qed.

Lemma kc_session_delete e : keeps_committed (session_delete e).
Proof. intros s; reflexivity. Qed.

Lemma kc_rollback : keeps_committed session_rollback.
Proof. intros s; reflexivity. Qed.

Lemma kc_flush dirty : keeps_committed (session_flush cls dirty).
Proof.
  intros s. unfold session_flush.
  assert (Hgo : committed
    (match execute s with
     | (Err x, s1) => (Err x, s1)
     | (Ok _, s1) =>
         match insert_all cls (clock s1) (next_id s1) (rows s1) (pending s1) with
         | Err x => (Err x, s1)
         | Ok (t1, written, nid) =>
             match update_all cls t1 dirty with
             | Err x => (Err x, s1)
             | Ok t2 =>
                 (Ok written,
                  {| rows := delete_all (deleted s1) t2; committed := committed s1;
                     pending := []; deleted := []; next_id := nid;
                     clock := clock s1; faults := faults s1 |})
             end
         end
     end).2 = committed s).
  { rewrite execute_eq. destruct (next_fault s); [reflexivity|].
    destruct (insert_all _ _ _ _ _) as [[[t1 w] nid]|x]; [|reflexivity].
    destruct (update_all _ _ _); reflexivity. }
  destruct (pending s), dirty, (deleted s); try exact Hgo. reflexivity.
Qed.

Lemma kc_refresh e : keeps_committed (session_refresh e).
Proof.
  apply kc_bind; [apply kc_execute|]. intros _ s.
  destruct (List.find _ _); reflexivity.
Qed.

Lemma kc_for_each {A B} (body : A → M B) xs :
  (∀ x, keeps_committed (body x)) → keeps_committed (for_each body xs).
Proof.
  intros Hb. induction xs as [|x xs IH]; simpl; [apply kc_ret|].
  apply kc_bind; [apply Hb|]. intros y.
  apply kc_bind; [apply IH|]. intros ys. apply kc_ret.
Qed.

Lemma kc_for_fold {A S} (step : S → A → M S) xs :
  (∀ acc x, keeps_committed (step acc x)) →
  ∀ acc, keeps_committed (for_fold step acc xs).
Proof.
  intros Hb. induction xs as [|x xs IH]; intros acc; simpl; [apply kc_ret|].
  apply kc_bind; [apply Hb|]. intros acc'. apply IH.
Qed.

Lemma kc_column key : keeps_committed (column cls key).
Proof. unfold column. destruct (hasattr cls key); [apply kc_ret|apply kc_raise]. Qed.

Lemma kc_construct data : keeps_committed (construct cls data).
Proof. unfold construct. destruct (forallb _ _); [apply kc_ret|apply kc_raise]. Qed.

Lemma kc_query_all q : keeps_committed (query_all cls q).
Proof.
  unfold query_all.
  apply kc_bind; [apply kc_flush|]. intros _.
  apply kc_bind; [apply kc_execute|]. intros _.
  destruct (_ || _); [apply kc_raise|]. intros s; reflexivity.
Qed.

Lemma kc_rollback_and_raise {A} e : keeps_committed (@rollback_and_raise A e).
Proof.
  unfold rollback_and_raise.
  apply kc_bind; [apply kc_rollback|]. intros _. apply kc_raise.
Qed.

End Primitives.

Create HintDb kc discriminated.

#[export] Hint Resolve kc_ret kc_raise kc_execute kc_utcnow kc_add
  kc_session_delete kc_rollback kc_flush kc_refresh kc_column kc_construct
  kc_query_all kc_rollback_and_raise : kc.

(** Walks through a method, statement by statement. *)
Ltac kc_step :=
  first
    [ solve [auto with kc]
    | apply kc_bind; [|intros ?]
    | apply kc_try; [|intros ?]
    | apply kc_for_each; intros ?
    | apply kc_for_fold; intros ? ?
    | match goal with
      | |- keeps_committed (match ?x with _ => _ end) => destruct x
      | |- keeps_committed (fun s => _) => intros ?; reflexivity
      end ].

Ltac kc := repeat kc_step.

Section Methods.

Variable cls : model_class.

Lemma kc_query_first q : keeps_committed (query_first cls q).
Proof. unfold query_first. kc. Qed.

Lemma kc_query_count q : keeps_committed (query_count cls q).
Proof. unfold query_count. kc. Qed.

Lemma kc_query_delete q : keeps_committed (query_delete cls q).
Proof. unfold query_delete. kc. Qed.

Lemma kc_conditions_of filters : keeps_committed (conditions_of cls filters).
Proof. unfold conditions_of. kc. Qed.

Hint Resolve kc_query_first kc_query_count kc_query_delete kc_conditions_of : kc.

Lemma kc_get_by_id entity_id : keeps_committed (get_by_id cls entity_id).
Proof. unfold get_by_id. kc. Qed.

Lemma kc_get_by_filters filters order_by limit offset descending :
  keeps_committed (get_by_filters cls filters order_by limit offset descending).
Proof. unfold get_by_filters. kc. Qed.

Hint Resolve kc_get_by_id kc_get_by_filters : kc.

Lemma kc_create data : keeps_committed (create cls data).
Proof. unfold create. kc. Qed.

Hint Resolve kc_create : kc.

Lemma kc_bulk_create items : keeps_committed (bulk_create cls items).
Proof. unfold bulk_create. kc. Qed.

Lemma kc_update entity_id data : keeps_committed (update cls entity_id data).
Proof. unfold update. kc. Qed.

Lemma kc_delete entity_id : keeps_committed (delete cls entity_id).
Proof. unfold delete. kc. Qed.

Lemma kc_delete_many filters : keeps_committed (delete_many cls filters).
Proof. unfold delete_many. kc. Qed.

Lemma kc_upsert unique_fields data :
  keeps_committed (upsert cls unique_fields data).
Proof. unfold upsert. kc. Qed.

Hint Resolve kc_upsert : kc.

Lemma kc_bulk_upsert unique_fields items :
  keeps_committed (bulk_upsert cls unique_fields items).
Proof. unfold bulk_upsert, bulk_upsert_step. kc. Qed.

(** A method of the shape [try: body except: rollback; raise DatabaseError]
    either returns what its body returns, or leaves the session rolled
    back and raises DatabaseError. *)
Lemma try_rollback {A} (body : M A) s :
  keeps_committed body →
  match try_except body rollback_and_raise s with
  | (Ok a, s') => body s = (Ok a, s')
  | (Err e, s') =>
      e = DatabaseError ∧ rolled_back s s' ∧ ∃ e0 s0, body s = (Err e0, s0)
  end.
Proof.
  intros Hk. unfold try_except. specialize (Hk s).
  destruct (body s) as [[a|e0] s0]; simpl in *; [reflexivity|].
  repeat split; eauto.
Qed.

End Methods.

(** ** Rows, keys and the flush *)

Lemma find_app_pk {A} (f : A → bool) l1 l2 :
  List.find f (l1 ++ l2) =
    match List.find f l1 with Some x => Some x | None => List.find f l2 end.
Proof.
  induction l1 as [|x l1 IH]; simpl; [reflexivity|].
  destruct (f x); [reflexivity|exact IH].
Qed.

Lemma find_none_iff {A} (f : A → bool) l :
  List.find f l = None ↔ ∀ x, x ∈ l → f x = false.
Proof.
  induction l as [|y l IH]; simpl.
  - split; [intros _ x Hx; inversion Hx|reflexivity].
  - destruct (f y) eqn:E.
    + split; [discriminate|]. intros H. rewrite (H y) in E; [discriminate|left].
    + rewrite IH. split.
      * intros H x Hx. inversion Hx; subst; auto.
      * intros H x Hx. apply H. right. exact Hx.
Qed.

Lemma find_some_elem {A} (f : A → bool) l x :
  List.find f l = Some x → x ∈ l ∧ f x = true.
Proof.
  induction l as [|y l IH]; simpl; [discriminate|].
  destruct (f y) eqn:E.
  - intros [= <-]. split; [left|exact E].
  - intros H. destruct (IH H). split; [right|]; assumption.
Qed.

Section Rows.

Variable cls : model_class.

Lemma insert_row_lookup now nid e k :
  insert_row cls now nid e !! k =
    if bool_decide (k ∈ attrs cls)
    then Some (if decide (getattr e k = None_)
               then column_fill cls now nid k else getattr e k)
    else None.
Proof.
  unfold insert_row. induction (attrs cls) as [|c l IH]; cbn [foldr].
  - rewrite lookup_empty. case_bool_decide as H; [inversion H|reflexivity].
  - destruct (decide (c = k)) as [->|Hne].
    + rewrite lookup_insert_eq, bool_decide_eq_true_2; [reflexivity|left].
    + rewrite lookup_insert_ne by assumption. rewrite IH.
      destruct (bool_decide (k ∈ l)) eqn:E.
      * apply bool_decide_eq_true in E.
        rewrite bool_decide_eq_true_2; [reflexivity|right; exact E].
      * apply bool_decide_eq_false in E.
        rewrite bool_decide_eq_false_2; [reflexivity|].
        rewrite elem_of_cons. intros [Hk|Hk]; [congruence|contradiction].
Qed.

(** A supplied attribute that is not [None] is written as it is. *)
Lemma insert_row_supplied now nid e k v :
  e !! k = Some v → v ≠ None_ → hasattr cls k = true →
  insert_row cls now nid e !! k = Some v.
Proof.
  intros He Hv Hk. rewrite insert_row_lookup. unfold hasattr in Hk.
  rewrite Hk. unfold getattr. rewrite He; simpl.
  destruct (decide (v = None_)); [contradiction|reflexivity].
Qed.

Lemma id_in_attrs : "id" ∈ attrs cls.
Proof. unfold attrs, base_columns. set_solver. Qed.

Lemma created_at_in_attrs : "created_at" ∈ attrs cls.
Proof. unfold attrs, base_columns. set_solver. Qed.

Lemma updated_at_in_attrs : "updated_at" ∈ attrs cls.
Proof. unfold attrs, base_columns. set_solver. Qed.

(** What a row that passed the checks of the store satisfies. *)
Lemma check_row_ok others r :
  check_row cls others r = Ok tt →
  (∃ n, pk r = Scalar (SInt n))
  ∧ getattr r "created_at" ≠ None_
  ∧ getattr r "updated_at" ≠ None_
  ∧ (∀ r', r' ∈ others → pk r' ≠ pk r).
Proof.
  unfold check_row. destruct (bindable cls r) eqn:Hb; simpl; [|discriminate].
  destruct (not_null_ok cls r && unique_ok cls others r) eqn:Hc; simpl;
    [|discriminate].
  intros _. apply andb_true_iff in Hc as [Hn Hu].
  apply andb_true_iff in Hb as [_ Hid].
  unfold not_null_ok in Hn. rewrite forallb_forall in Hn.
  assert (Hnn : ∀ c, c ∈ base_columns → getattr r c ≠ None_).
  { intros c Hc. specialize (Hn c).
    rewrite <- list_elem_of_In in Hn.
    specialize (Hn ltac:(apply elem_of_app; left; exact Hc)).
    apply negb_true_iff, bool_decide_eq_false in Hn. exact Hn. }
  split; [|split; [|split]].
  - destruct (pk r) as [[]|]; try discriminate. eauto.
  - apply Hnn. unfold base_columns. set_solver.
  - apply Hnn. unfold base_columns. set_solver.
  - intros r' Hr'. unfold unique_ok in Hu. simpl in Hu.
    apply andb_true_iff in Hu as [Hu _].
    apply orb_true_iff in Hu as [Hu|Hu].
    + apply bool_decide_eq_true in Hu. exfalso.
      apply (Hnn "id"); [unfold base_columns; set_solver|exact Hu].
    + rewrite forallb_forall in Hu. specialize (Hu r').
      rewrite <- list_elem_of_In in Hu. specialize (Hu Hr').
      apply negb_true_iff, bool_decide_eq_false in Hu. exact Hu.
Qed.

(** The flush of pending objects appends one row per object, built from
    the object; every row it wrote has an identifier and both timestamps,
    and is the row its primary key finds. *)
Lemma insert_all_spec now new : ∀ nid table t' written nid',
  insert_all cls now nid table new = Ok (t', written, nid') →
  t' = table ++ written
  ∧ Forall2 (fun e r => ∃ n, r = insert_row cls now n e) new written
  ∧ Forall (fun r => (∃ n, pk r = Scalar (SInt n))
                     ∧ getattr r "created_at" ≠ None_
                     ∧ getattr r "updated_at" ≠ None_) written
  ∧ (∀ r, r ∈ written →
       List.find (fun x => bool_decide (pk x = pk r)) t' = Some r).
Proof.
  induction new as [|e new IH]; intros nid table t' written nid' H; simpl in H.
  - injection H as <- <- <-. rewrite app_nil_r.
    repeat split; [constructor|constructor|]. intros r Hr; inversion Hr.
  - set (r := insert_row cls now nid e) in *.
    destruct (check_row cls table r) as [[]|x] eqn:Hc; [|discriminate].
    destruct (insert_all cls now _ (table ++ [r]) new)
      as [[[t1 w1] n1]|x] eqn:Hi; [|discriminate].
    injection H as <- <- <-.
    destruct (IH _ _ _ _ _ Hi) as (Ht & Hf2 & Hall & Hfind).
    destruct (check_row_ok _ _ Hc) as (Hid & Hca & Hua & Hfresh).
    subst t1. rewrite <- app_assoc. simpl.
    split; [reflexivity|]. split; [constructor; eauto|].
    split; [constructor; auto|].
    intros r' Hr'. apply elem_of_cons in Hr' as [->|Hr'].
    + rewrite find_app_pk.
      assert (Hn : List.find (fun x => bool_decide (pk x = pk r)) table = None).
      { apply find_none_iff. intros x Hx.
        apply bool_decide_eq_false. apply Hfresh. exact Hx. }
      rewrite Hn. simpl. rewrite bool_decide_eq_true_2; reflexivity.
    + specialize (Hfind r' Hr'). rewrite <- app_assoc in Hfind. exact Hfind.
Qed.

End Rows.

Section Flush.

Variable cls : model_class.

Lemma delete_all_nil table : delete_all [] table = table.
Proof.
  unfold delete_all. induction table as [|r t IH]; [reflexivity|].
  rewrite filter_cons_True; [|apply not_elem_of_nil]. rewrite IH. reflexivity.
Qed.

(** A flush that only has pending objects to write. *)
Lemma flush_pending_spec s w s' :
  deleted s = [] →
  session_flush cls [] s = (Ok w, s') →
  rows s' = rows s ++ w
  ∧ Forall2 (fun e r => ∃ n, r = insert_row cls (clock s + 1) n e) (pending s) w
  ∧ Forall (fun r => (∃ n, pk r = Scalar (SInt n))
                     ∧ getattr r "created_at" ≠ None_
                     ∧ getattr r "updated_at" ≠ None_) w
  ∧ (∀ r, r ∈ w →
       List.find (fun x => bool_decide (pk x = pk r)) (rows s') = Some r)
  ∧ committed s' = committed s
  ∧ clean s'.
Proof.
  intros Hd. unfold session_flush. rewrite Hd.
  destruct (pending s) as [|e new] eqn:Hp.
  - intros [= <- <-]. rewrite app_nil_r.
    repeat split; try constructor; try assumption.
    intros r Hr; inversion Hr.
  - rewrite execute_eq. destruct (next_fault s); [discriminate|].
    cbn [advance rows pending clock next_id deleted committed faults].
    rewrite Hp, Hd.
    destruct (insert_all cls (clock s + 1) (next_id s) (rows s) (e :: new))
      as [[[t1 w1] n1]|x] eqn:Hi; [|discriminate].
    cbn [update_all]. rewrite delete_all_nil.
    intros [= <- <-]. cbn [rows committed].
    destruct (insert_all_spec cls _ _ _ _ _ _ _ Hi) as (-> & Hf2 & Hall & Hfind).
    repeat split; assumption.
Qed.

Lemma session_refresh_eq e s :
  session_refresh e s =
    (if next_fault s then Err StoreFault
     else match List.find (fun r => bool_decide (pk r = pk e)) (rows s) with
          | Some r => Ok r
          | None => Err InvalidRequestError
          end,
     advance s).
Proof.
  unfold session_refresh, bind. rewrite execute_eq.
  destruct (next_fault s); [reflexivity|].
  cbn [advance rows]. destruct (List.find _ _); reflexivity.
Qed.

(** Refreshing objects that are their own rows returns them and changes
    nothing in the table or in the unit of work. *)
Lemma refresh_all_spec l : ∀ s l' s',
  (∀ r, r ∈ l →
     List.find (fun x => bool_decide (pk x = pk r)) (rows s) = Some r) →
  for_each session_refresh l s = (Ok l', s') →
  l' = l ∧ rows s' = rows s ∧ committed s' = committed s
  ∧ pending s' = pending s ∧ deleted s' = deleted s.
Proof.
  induction l as [|r l IH]; intros s l' s' Hfind; simpl.
  - intros [= <- <-]. repeat split.
  - unfold bind. rewrite session_refresh_eq.
    destruct (next_fault s); [discriminate|].
    rewrite (Hfind r) by left.
    destruct (for_each session_refresh l (advance s)) as [[l1|x] s1] eqn:Hl;
      [|discriminate].
    intros [= <- <-].
    destruct (IH (advance s) l1 s1) as (-> & Hr & Hc & Hp & Hd); [|exact Hl|].
    + intros r' Hr'. cbn [advance rows]. apply Hfind. right. exact Hr'.
    + repeat split; assumption.
Qed.

(** The constructor returns its keywords, all of them attributes. *)
Lemma construct_ok data e s s' :
  construct cls data s = (Ok e, s') →
  e = data ∧ s' = s ∧ ∀ k v, data !! k = Some v → hasattr cls k = true.
Proof.
  unfold construct. destruct (forallb _ _) eqn:Hf; [|discriminate].
  intros [= <- <-]. repeat split. intros k v Hk.
  rewrite forallb_forall in Hf. specialize (Hf (k, v)).
  rewrite <- list_elem_of_In, elem_of_map_to_list in Hf. exact (Hf Hk).
Qed.

(** The first loop of [bulk_create]: every item is constructed and added. *)
Lemma construct_all_spec items : ∀ s es s',
  for_each (fun item => entity <- construct cls item ;;
                        session_add entity ;; ret entity) items s = (Ok es, s') →
  es = items
  ∧ pending s' = pending s ++ items
  ∧ rows s' = rows s ∧ committed s' = committed s ∧ deleted s' = deleted s
  ∧ clock s' = clock s ∧ next_id s' = next_id s ∧ faults s' = faults s
  ∧ Forall (fun item => ∀ k v, item !! k = Some v → hasattr cls k = true) items.
Proof.
  induction items as [|item items IH]; intros s es s'; simpl.
  - intros [= <- <-]. rewrite app_nil_r. repeat split. constructor.
  - unfold bind at 1 2.
    destruct (construct cls item s) as [[e|x] s1] eqn:Hc; [|discriminate].
    destruct (construct_ok _ _ _ _ Hc) as (-> & -> & Hk).
    unfold session_add at 1. unfold ret at 1. unfold bind at 1. unfold bind at 1.
    match goal with |- context [for_each ?f items ?st] =>
      destruct (for_each f items st) as [[es1|x] s2] eqn:Hl end; [|discriminate].
    unfold ret. intros [= <- <-].
    destruct (IH _ _ _ Hl) as (-> & Hp & Hr & Hcm & Hd & Hcl & Hn & Hfa & Hall).
    cbn [pending rows committed deleted clock next_id faults] in *.
    rewrite Hp, <- app_assoc. repeat split; try assumption.
    constructor; assumption.
Qed.

End Flush.

#[export] Hint Resolve kc_query_first kc_query_count kc_query_delete
  kc_conditions_of kc_get_by_id kc_get_by_filters kc_create kc_upsert : kc.

(** ** Failure of a mutating method *)

Section Failure.

Variable cls : model_class.

Lemma fails_rolled_back_try {A} (body : M A) :
  keeps_committed body →
  fails_rolled_back (try_except body rollback_and_raise).
Proof.
  intros Hk s e s' H.
  pose proof (try_rollback body s Hk) as Ht. rewrite H in Ht.
  destruct Ht as (He & Hr & _). split; assumption.
Qed.

Lemma create_fails data : fails_rolled_back (create cls data).
Proof. unfold create. apply fails_rolled_back_try. kc. Qed.

Lemma bulk_create_fails items : fails_rolled_back (bulk_create cls items).
Proof. unfold bulk_create. apply fails_rolled_back_try. kc. Qed.

Lemma update_fails entity_id data :
  fails_rolled_back (update cls entity_id data).
Proof. unfold update. apply fails_rolled_back_try. kc. Qed.

Lemma delete_fails entity_id : fails_rolled_back (delete cls entity_id).
Proof. unfold delete. apply fails_rolled_back_try. kc. Qed.

Lemma delete_many_fails filters : fails_rolled_back (delete_many cls filters).
Proof. unfold delete_many. apply fails_rolled_back_try. kc. Qed.

Lemma upsert_fails unique_fields data :
  fails_rolled_back (upsert cls unique_fields data).
Proof. unfold upsert. apply fails_rolled_back_try. kc. Qed.

Lemma bulk_upsert_fails unique_fields items :
  fails_rolled_back (bulk_upsert cls unique_fields items).
Proof.
  unfold bulk_upsert, bulk_upsert_step. apply fails_rolled_back_try. kc.
Qed.

(** [commit] changes the durable table only when it succeeds. *)
Lemma commit_fails : fails_rolled_back (commit cls).
Proof.
  intros s e s'. unfold commit, try_except, session_commit.
  unfold bind at 1.
  pose proof (kc_flush cls [] s) as Hf.
  destruct (session_flush cls [] s) as [[w|x] s1]; simpl in Hf.
  - unfold bind at 1. rewrite execute_eq.
    destruct (next_fault s1).
    + intros [= <- <-]. repeat split; simpl; assumption.
    + discriminate.
  - intros [= <- <-]. repeat split; simpl; assumption.
Qed.

(** The body of [bulk_create] when it succeeds on a clean session. *)
Lemma bulk_create_ok items s es s' :
  clean s →
  bulk_create cls items s = (Ok es, s') →
  rows s' = rows s ++ es
  ∧ length es = length items
  ∧ Forall2 (fun item e =>
               ∀ k v, item !! k = Some v → v ≠ None_ → e !! k = Some v)
            items es
  ∧ Forall (fun e => (∃ n, pk e = Scalar (SInt n))
                     ∧ getattr e "created_at" ≠ None_
                     ∧ getattr e "updated_at" ≠ None_) es
  ∧ committed s' = committed s
  ∧ clean s'.
Proof.
  intros [Hp Hd]. unfold bulk_create, try_except.
  unfold bind at 1.
  match goal with |- context [for_each ?f items s] =>
    destruct (for_each f items s) as [[ents|x] s1] eqn:Hl end;
    [|intros H; discriminate H].
  destruct (construct_all_spec cls _ _ _ _ Hl)
    as (-> & Hp1 & Hr1 & Hc1 & Hd1 & Hcl1 & Hn1 & Hf1 & Hattrs).
  rewrite Hp in Hp1. simpl in Hp1.
  unfold bind at 1.
  destruct (session_flush cls [] s1) as [[w|x] s2] eqn:Hfl;
    [|intros H; discriminate H].
  assert (Hd1' : deleted s1 = []) by congruence.
  destruct (flush_pending_spec cls _ _ _ Hd1' Hfl)
    as (Hr2 & Hf2 & Hall & Hfind & Hc2 & Hcl2).
  rewrite Hp1 in Hf2.
  assert (Hlen : length w = length items).
  { symmetry. eapply Forall2_length. exact Hf2. }
  rewrite Hlen, Nat.sub_diag, drop_0.
  destruct (for_each session_refresh w s2) as [[l'|x] s3] eqn:Hrf;
    [|intros H; discriminate H].
  intros [= <- <-].
  destruct (refresh_all_spec _ _ _ _ Hfind Hrf) as (-> & Hr3 & Hc3 & Hp3 & Hd3).
  destruct Hcl2 as [Hcp Hcd].
  split; [congruence|]. split; [exact Hlen|].
  split; [|split; [exact Hall|split; [congruence|split; congruence]]].
  clear -Hf2 Hattrs. revert w Hf2.
  induction items as [|item items IH]; intros w Hf2; inversion Hf2; subst;
    constructor.
  - destruct H1 as [n ->]. intros k v Hk Hv.
    inversion Hattrs; subst.
    apply insert_row_supplied; eauto.
  - inversion Hattrs; subst. apply IH; assumption.
Qed.

End Failure.

(** ** Reading and changing one entity *)

Section OneEntity.

Variable cls : model_class.

Lemma set_fields_lookup data old k :
  set_fields cls data old !! k = field_after cls data old k.
Proof.
  unfold set_fields, field_after.
  apply (map_fold_weak_ind
           (fun acc (m : dict) =>
              acc !! k = if hasattr cls k
                         then match m !! k with Some v => Some v | None => old !! k end
                         else old !! k)).
  - rewrite lookup_empty. destruct (hasattr cls k); reflexivity.
  - intros i x m r Hi IH.
    destruct (decide (i = k)) as [->|Hne].
    + destruct (hasattr cls k).
      * rewrite !lookup_insert_eq. reflexivity.
      * exact IH.
    + rewrite (lookup_insert_ne m) by assumption.
      destruct (hasattr cls i); [rewrite lookup_insert_ne by assumption|];
        exact IH.
Qed.

Lemma set_fields_empty old : set_fields cls ∅ old = old.
Proof. unfold set_fields. apply map_fold_empty. Qed.

Lemma head_take_filter_id entity_id table :
  head (take (Z.to_nat 1)
             (filter (fun r => and_ [CEq "id" (SInt entity_id)] r = true) table))
  = lookup_id entity_id table.
Proof.
  unfold lookup_id. change (Z.to_nat 1) with 1%nat.
  induction table as [|r t IH]; [reflexivity|]. simpl List.find.
  destruct (bool_decide (pk r = Scalar (SInt entity_id))) eqn:E.
  - rewrite filter_cons_True; [reflexivity|].
    unfold and_; simpl. unfold pk in E. rewrite E. reflexivity.
  - rewrite filter_cons_False; [exact IH|].
    unfold and_; simpl. unfold pk in E. rewrite E. discriminate.
Qed.

(** [get_by_id] on a clean session: one statement; the first row with
    that identifier, if any. *)
Lemma get_by_id_eq entity_id s :
  clean s →
  get_by_id cls entity_id s =
    (if next_fault s then Err DatabaseError
     else Ok (lookup_id entity_id (rows s)),
     advance s).
Proof.
  intros Hc. unfold get_by_id, try_except, query_first, bind.
  rewrite (query_all_eq cls _ s Hc).
  destruct (next_fault s); [reflexivity|].
  cbn [q_set_limit q_filter session_query q_limit q_offset negative orb].
  change (1 <? 0) with false. cbn [orb]. unfold ret.
  change (select _ (rows s))
    with (take (Z.to_nat 1)
            (filter (fun r => and_ [CEq "id" (SInt entity_id)] r = true) (rows s))).
  rewrite head_take_filter_id. reflexivity.
Qed.

Lemma lookup_id_some entity_id table r :
  lookup_id entity_id table = Some r →
  r ∈ table ∧ pk r = Scalar (SInt entity_id).
Proof.
  intros H. apply find_some_elem in H as [Hin Hb].
  apply bool_decide_eq_true in Hb. split; assumption.
Qed.

Lemma lookup_id_none entity_id table :
  lookup_id entity_id table = None ↔
  ∀ r, r ∈ table → pk r ≠ Scalar (SInt entity_id).
Proof.
  unfold lookup_id. rewrite find_none_iff.
  split; intros H r Hr; specialize (H r Hr).
  - apply bool_decide_eq_false in H. exact H.
  - apply bool_decide_eq_false. exact H.
Qed.

(** After the rows of key [key] are replaced by [e], the key of [e] finds
    [e], when no other row has that key. *)
Lemma find_replace_row key e table :
  (∀ r, r ∈ table → pk r ≠ key → pk r ≠ pk e) →
  (∃ r, r ∈ table ∧ pk r = key) →
  List.find (fun x => bool_decide (pk x = pk e)) (replace_row key e table)
  = Some e.
Proof.
  unfold replace_row. induction table as [|r t IH]; intros Hother [r0 [Hin Hk]].
  - inversion Hin.
  - simpl. destruct (decide (pk r = key)) as [Heq|Hne].
    + rewrite bool_decide_eq_true_2; reflexivity.
    + rewrite bool_decide_eq_false_2
        by (apply Hother; [left|assumption]).
      apply IH.
      * intros r' Hr'. apply Hother. right. exact Hr'.
      * apply elem_of_cons in Hin as [->|Hin]; [contradiction|eauto].
Qed.

(** A flush whose only work is the UPDATE of one changed object. *)
Lemma flush_dirty_eq key e s :
  clean s →
  session_flush cls [(key, e)] s =
    if next_fault s then (Err StoreFault, advance s)
    else match check_row cls (filter (fun r => pk r ≠ key) (rows s)) e with
         | Err x => (Err x, advance s)
         | Ok _ => (Ok [], set_rows (replace_row key e (rows s)) (advance s))
         end.
Proof.
  intros [Hp Hd]. unfold session_flush. rewrite Hp, execute_eq.
  destruct (next_fault s); [reflexivity|].
  cbn [advance rows pending clock next_id deleted committed faults].
  rewrite Hp, Hd. cbn [insert_all update_all].
  destruct (check_row cls _ e) as [[]|x]; [|reflexivity].
  rewrite delete_all_nil. unfold set_rows, replace_row.
  cbn [advance rows pending clock next_id deleted committed faults].
  rewrite Hp, Hd. reflexivity.
Qed.

End OneEntity.

Section WriteBack.

Variable cls : model_class.

(** The end of [update] and of the update branch of [upsert]: the changed
    object is flushed and read again. *)
Lemma write_back_eq {B} (f : entity → B) old e s :
  clean s → old ∈ rows s →
  (session_flush cls [(pk old, e)] ;;
   entity <- session_refresh e ;; ret (f entity)) s =
    if next_fault s then (Err StoreFault, advance s)
    else match check_row cls (filter (fun r => pk r ≠ pk old) (rows s)) e with
         | Err x => (Err x, advance s)
         | Ok _ =>
             let s1 := set_rows (replace_row (pk old) e (rows s)) (advance s) in
             if next_fault s1 then (Err StoreFault, advance s1)
             else (Ok (f e), advance s1)
         end.
Proof.
  intros Hc Hold. unfold bind at 1. rewrite (flush_dirty_eq cls _ _ _ Hc).
  destruct (next_fault s); [reflexivity|].
  destruct (check_row cls _ e) as [[]|x] eqn:Hck; [|reflexivity].
  cbv zeta. unfold bind. rewrite session_refresh_eq.
  destruct (next_fault _); [reflexivity|].
  cbn [set_rows rows].
  rewrite find_replace_row; [reflexivity| |eauto].
  intros r Hr Hne. destruct (check_row_ok _ _ _ Hck) as (_ & _ & _ & Hfresh).
  apply Hfresh. apply list_elem_of_filter. split; assumption.
Qed.

Lemma next_fault_set_rows t s : next_fault (set_rows t s) = next_fault s.
Proof. reflexivity. Qed.

Lemma healthy_set_rows n t s : healthy n (set_rows t s) ↔ healthy n s.
Proof. reflexivity. Qed.

(** ** Repository.update *)

(** C4.  On a clean session whose store answers, [update] returns nothing
    when no row has the identifier.  Otherwise the object it works on is
    the row with every key of [data] that is an attribute of the class
    overwritten, every other field as it was, and [updated_at] set to the
    current time (also for an empty [data]); when the store accepts that
    row it replaces the old one and is returned, and when the store
    refuses it the method raises DatabaseError on a rolled-back session. *)
Theorem update_contract entity_id data s :
  clean s → healthy 3 s →
  match lookup_id entity_id (rows s) with
  | None => update cls entity_id data s = (Ok None, advance s)
  | Some old =>
      let now := Scalar (STime (clock s + 1)) in
      let e := <["updated_at" := now]> (set_fields cls data old) in
      e !! "updated_at" = Some now
      ∧ (∀ k, k ≠ "updated_at" → e !! k = field_after cls data old k)
      ∧ (data = ∅ → ∀ k, k ≠ "updated_at" → e !! k = old !! k)
      ∧ match check_row cls (filter (fun r => pk r ≠ pk old) (rows s)) e with
        | Ok _ =>
            ∃ s', update cls entity_id data s = (Ok (Some e), s')
                  ∧ rows s' = replace_row (pk old) e (rows s)
                  ∧ committed s' = committed s ∧ clean s'
        | Err _ =>
            ∃ s', update cls entity_id data s = (Err DatabaseError, s')
                  ∧ rolled_back s s'
        end
  end.
Proof.
  intros Hc Hh.
  pose proof (healthy_next _ _ Hh) as Hf0.
  pose proof (healthy_advance _ _ Hh) as Hh1.
  pose proof (healthy_next _ _ Hh1) as Hf1.
  pose proof (healthy_advance _ _ Hh1) as Hh2.
  pose proof (healthy_next _ _ Hh2) as Hf2.
  pose proof (get_by_id_eq cls entity_id _ Hc) as Hg. rewrite Hf0 in Hg.
  destruct (lookup_id entity_id (rows s)) as [old|] eqn:Hl.
  2:{ unfold update, try_except. unfold bind at 1. rewrite Hg. reflexivity. }
  destruct (lookup_id_some _ _ _ Hl) as [Hin Hpk].
  cbv zeta. split; [apply lookup_insert_eq|].
  split.
  { intros k Hk. rewrite lookup_insert_ne by congruence.
    apply set_fields_lookup. }
  split.
  { intros -> k Hk. rewrite lookup_insert_ne by congruence.
    rewrite set_fields_empty. reflexivity. }
  set (e := <["updated_at" := Scalar (STime (clock s + 1))]>
              (set_fields cls data old)).
  assert (Hu : update cls entity_id data s =
               try_except
                 (session_flush cls [(pk old, e)] ;;
                  entity <- session_refresh e ;; ret (Some entity))
                 rollback_and_raise (advance s)).
  { unfold update, try_except. unfold bind at 1. rewrite Hg.
    unfold bind at 1. reflexivity. }
  rewrite Hu. unfold try_except.
  rewrite (write_back_eq Some old e (advance s) (clean_advance _ Hc) Hin).
  rewrite Hf1. cbn [advance rows].
  destruct (check_row cls _ e) as [[]|x].
  - cbv zeta. rewrite next_fault_set_rows, Hf2.
    eexists. split; [reflexivity|]. destruct Hc as [Hp Hd].
    repeat split; assumption.
  - unfold rollback_and_raise, bind, session_rollback, raise.
    eexists. split; [reflexivity|]. repeat split.
Qed.

End WriteBack.

(** ** Repository.delete and the absent identifier *)

Section Delete.

Variable cls : model_class.

Lemma update_absent_eq entity_id data s :
  clean s → lookup_id entity_id (rows s) = None →
  update cls entity_id data s =
    if next_fault s
    then (Err DatabaseError, (session_rollback (advance s)).2)
    else (Ok None, advance s).
Proof.
  intros Hc Hl. unfold update, try_except. unfold bind at 1.
  rewrite (get_by_id_eq cls _ _ Hc), Hl.
  destruct (next_fault s); reflexivity.
Qed.

Lemma delete_absent_eq entity_id s :
  clean s → lookup_id entity_id (rows s) = None →
  delete cls entity_id s =
    if next_fault s
    then (Err DatabaseError, (session_rollback (advance s)).2)
    else (Ok false, advance s).
Proof.
  intros Hc Hl. unfold delete, try_except. unfold bind at 1.
  rewrite (get_by_id_eq cls _ _ Hc), Hl.
  destruct (next_fault s); reflexivity.
Qed.

(** C8.  For an identifier that no row has, on a clean session: when the
    store answers, [get_by_id] and [update] return nothing and [delete]
    returns false; and whenever one of them raises, it raises
    DatabaseError and the store had failed. *)
Theorem absent_is_not_an_error entity_id data s :
  clean s → lookup_id entity_id (rows s) = None →
  (next_fault s = false →
     get_by_id cls entity_id s = (Ok None, advance s)
     ∧ update cls entity_id data s = (Ok None, advance s)
     ∧ delete cls entity_id s = (Ok false, advance s))
  ∧ (∀ e s', get_by_id cls entity_id s = (Err e, s') →
       e = DatabaseError ∧ next_fault s = true)
  ∧ (∀ e s', update cls entity_id data s = (Err e, s') →
       e = DatabaseError ∧ next_fault s = true)
  ∧ (∀ e s', delete cls entity_id s = (Err e, s') →
       e = DatabaseError ∧ next_fault s = true).
Proof.
  intros Hc Hl.
  rewrite (get_by_id_eq cls _ _ Hc), Hl,
    (update_absent_eq _ data _ Hc Hl), (delete_absent_eq _ _ Hc Hl).
  destruct (next_fault s).
  - split; [discriminate|].
    repeat split; congruence.
  - split; [intros _; repeat split|].
    repeat split; discriminate.
Qed.

Lemma delete_all_one key table :
  delete_all [key] table = filter (fun r => pk r ≠ key) table.
Proof.
  unfold delete_all. apply list_filter_iff. intros r.
  rewrite list_elem_of_singleton. reflexivity.
Qed.

(** [delete] of an identifier that a row has, on a clean session. *)
Lemma delete_present_eq entity_id old s :
  clean s → lookup_id entity_id (rows s) = Some old →
  next_fault s = false → next_fault (advance s) = false →
  delete cls entity_id s =
    (Ok true,
     set_rows (filter (fun r => pk r ≠ Scalar (SInt entity_id)) (rows s))
              (advance (advance s))).
Proof.
  intros [Hp Hd] Hl Hf0 Hf1.
  destruct (lookup_id_some _ _ _ Hl) as [Hin Hpk].
  unfold delete, try_except. unfold bind at 1.
  rewrite (get_by_id_eq cls _ _ (conj Hp Hd)), Hl, Hf0.
  unfold bind at 1. unfold session_delete at 1.
  cbn [advance rows pending clock next_id deleted committed faults].
  unfold bind at 1. unfold session_flush.
  cbn [rows pending clock next_id deleted committed faults].
  rewrite Hp, Hd. cbn [app]. rewrite execute_eq.
  unfold next_fault in Hf1 |- *. cbn [advance faults] in Hf1 |- *.
  rewrite Hf1.
  cbn [advance rows pending clock next_id deleted committed faults].
  cbn [insert_all update_all].
  rewrite delete_all_one, Hpk. unfold ret, set_rows.
  cbn [advance rows pending clock next_id deleted committed faults].
  rewrite ?Hp, ?Hd. reflexivity.
Qed.

(** C9.  On a clean session whose store answers, [delete] of the
    identifier of a stored entity returns true and removes the rows of
    that identifier, and a [get_by_id] that follows returns nothing. *)
Theorem delete_then_get_by_id entity_id old s :
  clean s → healthy 3 s → lookup_id entity_id (rows s) = Some old →
  ∃ s', delete cls entity_id s = (Ok true, s')
        ∧ rows s' = filter (fun r => pk r ≠ Scalar (SInt entity_id)) (rows s)
        ∧ (old ∉ rows s')
        ∧ get_by_id cls entity_id s' = (Ok None, advance s').
Proof.
  intros Hc Hh Hl.
  pose proof (healthy_next _ _ Hh) as Hf0.
  pose proof (healthy_advance _ _ Hh) as Hh1.
  pose proof (healthy_next _ _ Hh1) as Hf1.
  pose proof (healthy_advance _ _ Hh1) as Hh2.
  pose proof (healthy_next _ _ Hh2) as Hf2.
  rewrite (delete_present_eq _ _ _ Hc Hl Hf0 Hf1).
  eexists. split; [reflexivity|]. cbn [set_rows rows].
  split; [reflexivity|].
  destruct (lookup_id_some _ _ _ Hl) as [Hin Hpk].
  split.
  { rewrite list_elem_of_filter. intros [Hne _]. contradiction. }
  rewrite get_by_id_eq.
  2:{ destruct Hc; split; assumption. }
  rewrite next_fault_set_rows, Hf2. cbn [set_rows rows].
  assert (Hnone : lookup_id entity_id
            (filter (fun r => pk r ≠ Scalar (SInt entity_id)) (rows s)) = None).
  { apply lookup_id_none. intros r Hr.
    apply list_elem_of_filter in Hr as [Hne _]. exact Hne. }
  rewrite Hnone. reflexivity.
Qed.

End Delete.

(** ** Repository.create *)

Section Create.

Variable cls : model_class.

(** What a successful [create] did, on a clean session: one row, built
    from the object and accepted by the store, was appended, and it is the
    entity returned. *)
Lemma create_ok data e s s' :
  clean s →
  create cls data s = (Ok e, s') →
  let supplied := match data with inl d => d | inr o => o end in
  rows s' = rows s ++ [e]
  ∧ (∃ n, e = insert_row cls (clock s + 1) n supplied)
  ∧ (∃ n, pk e = Scalar (SInt n))
  ∧ getattr e "created_at" ≠ None_
  ∧ getattr e "updated_at" ≠ None_
  ∧ List.find (fun x => bool_decide (pk x = pk e)) (rows s') = Some e
  ∧ (∀ d, data = inl d → ∀ k v, d !! k = Some v → hasattr cls k = true)
  ∧ committed s' = committed s
  ∧ clean s'.
Proof.
  intros [Hp Hd]. unfold create, try_except. unfold bind at 1.
  set (supplied := match data with inl d => d | inr o => o end).
  assert (Hcons : ∀ ent s1,
    match data with inl d => construct cls d | inr o => ret o end s = (Ok ent, s1) →
    ent = supplied ∧ s1 = s
    ∧ (∀ d, data = inl d → ∀ k v, d !! k = Some v → hasattr cls k = true)).
  { intros ent s1. subst supplied. destruct data as [d|o].
    - intros H. destruct (construct_ok _ _ _ _ _ H) as (-> & -> & Hk).
      repeat split. intros d' [= <-]. exact Hk.
    - intros [= <- <-]. repeat split. intros d' [=]. }
  destruct (match data with inl d => construct cls d | inr o => ret o end s)
    as [[ent|x] s1]; [|intros H; discriminate H].
  destruct (Hcons _ _ eq_refl) as (-> & -> & Hattrs). clear Hcons.
  unfold bind at 1. unfold session_add at 1. unfold bind at 1.
  match goal with |- context [session_flush cls [] ?st] =>
    set (s1 := st);
    destruct (session_flush cls [] s1) as [[w|x] s2] eqn:Hfl end;
    [|intros H; discriminate H].
  assert (Hd1 : deleted s1 = []) by exact Hd.
  destruct (flush_pending_spec cls _ _ _ Hd1 Hfl)
    as (Hr2 & Hf2 & Hall & Hfind & Hc2 & Hcl2).
  subst s1. cbn [pending rows clock committed] in *.
  rewrite Hp in Hf2. cbn [app] in Hf2.
  inversion Hf2 as [|? r ? w' Hrow Hrest]; subst. inversion Hrest; subst.
  cbn [last]. unfold bind at 1. unfold ret at 1.
  rewrite session_refresh_eq. destruct (next_fault s2); [discriminate|].
  rewrite (Hfind r) by left. unfold ret. intros [= <- <-].
  inversion Hall as [|? ? (Hid & Hca & Hua) _]; subst.
  cbn [advance rows committed].
  split; [exact Hr2|]. split; [exact Hrow|]. split; [exact Hid|].
  split; [exact Hca|]. split; [exact Hua|].
  split; [apply Hfind; left|]. split; [exact Hattrs|].
  split; [exact Hc2|]. destruct Hcl2; split; assumption.
Qed.

(** C6.  After a successful [create] on a clean session, the entity
    returned has an integer identifier and both timestamps; a [get_by_id]
    with that identifier, when the store answers, returns that entity; and
    every attribute that was supplied with a value other than [None] has
    the supplied value. *)
Theorem create_then_get_by_id data e s s' :
  clean s →
  create cls data s = (Ok e, s') →
  next_fault s' = false →
  ∃ n, pk e = Scalar (SInt n)
       ∧ get_by_id cls n s' = (Ok (Some e), advance s')
       ∧ getattr e "created_at" ≠ None_
       ∧ getattr e "updated_at" ≠ None_
       ∧ (∀ d, data = inl d →
            ∀ k v, d !! k = Some v → v ≠ None_ → e !! k = Some v)
       ∧ (∀ o, data = inr o →
            ∀ k v, o !! k = Some v → v ≠ None_ → hasattr cls k = true →
                   e !! k = Some v).
Proof.
  intros Hc Hcr Hf.
  destruct (create_ok _ _ _ _ Hc Hcr)
    as (Hrows & [m Hrow] & [n Hid] & Hca & Hua & Hfind & Hattrs & _ & Hcl).
  exists n. split; [exact Hid|].
  split.
  { rewrite (get_by_id_eq cls _ _ Hcl), Hf. unfold lookup_id.
    rewrite <- Hid, Hfind. reflexivity. }
  split; [exact Hca|]. split; [exact Hua|]. split.
  - intros d -> k v Hk Hv. rewrite Hrow.
    apply insert_row_supplied; eauto.
  - intros o -> k v Hk Hv Hat. rewrite Hrow.
    apply insert_row_supplied; assumption.
Qed.

End Create.

(** ** Filters *)

Section Filters.

Variable cls : model_class.

Lemma holds_eq col v r :
  holds (CEq col v) r = true ↔ getattr r col = Scalar v.
Proof. unfold holds. apply bool_decide_eq_true. Qed.

Lemma holds_in col l r :
  holds (CIn col l) r = true ↔
  ∃ x, getattr r col = Scalar x ∧ x ≠ SNull ∧ x ∈ l.
Proof.
  unfold holds. destruct (getattr r col) as [x|l'].
  - destruct x; try (rewrite bool_decide_eq_true; split;
      [intros H; eexists; repeat split; [discriminate|exact H]
      |intros (y & [= <-] & _ & H); exact H]).
    split; [discriminate|]. intros (y & [= <-] & Hn & _). contradiction.
  - split; [discriminate|]. intros (y & H & _). discriminate.
Qed.

(** The criteria built from a filter dictionary hold together exactly when
    every entry holds: equality for a scalar, membership for a list. *)
Lemma matchesb_iff filters r :
  matchesb filters r = true ↔ matches filters r.
Proof.
  unfold matchesb, and_, matches. rewrite forallb_forall. split.
  - intros H key v Hk.
    specialize (H (condition_of (key, v))).
    rewrite <- list_elem_of_In in H.
    assert (Hin : condition_of (key, v) ∈ condition_of <$> map_to_list filters).
    { apply list_elem_of_fmap. exists (key, v). split; [reflexivity|].
      apply elem_of_map_to_list. exact Hk. }
    specialize (H Hin). unfold condition_of in H. simpl in H.
    destruct v as [x|l]; [apply holds_eq in H|apply holds_in in H]; exact H.
  - intros H c Hc. rewrite <- list_elem_of_In in Hc.
    apply list_elem_of_fmap in Hc as ([key v] & -> & Hkv).
    apply elem_of_map_to_list in Hkv. specialize (H key v Hkv).
    unfold condition_of; simpl.
    destruct v as [x|l]; [apply holds_eq|apply holds_in]; exact H.
Qed.

Lemma conditions_of_ok filters s :
  known cls filters →
  conditions_of cls filters s = (Ok (condition_of <$> map_to_list filters), s).
Proof.
  intros Hk. unfold conditions_of.
  assert (Hl : ∀ kv, kv ∈ map_to_list filters → hasattr cls kv.1 = true).
  { intros [k v] Hin. apply elem_of_map_to_list in Hin. exact (Hk k v Hin). }
  induction (map_to_list filters) as [|kv l IH]; [reflexivity|].
  cbn [for_each fmap list_fmap]. unfold bind at 1. unfold bind at 1.
  unfold column at 1. rewrite (Hl kv) by left. unfold ret at 1.
  unfold ret at 1. unfold bind at 1.
  rewrite IH; [reflexivity|]. intros kv' Hin. apply Hl. right. exact Hin.
Qed.

Lemma matchesb_empty r : matchesb ∅ r = true.
Proof. unfold matchesb. rewrite map_to_list_empty. reflexivity. Qed.

Lemma filter_all_true (table : list entity) (P : entity → bool) :
  (∀ r, P r = true) → filter (fun r => P r = true) table = table.
Proof.
  intros H. induction table as [|r t IH]; [reflexivity|].
  rewrite filter_cons_True by apply H. rewrite IH. reflexivity.
Qed.

(** [get_by_filters] on a clean session whose store answers, for a filter
    on attributes of the class, an ordering on an attribute and no
    negative bound. *)
Lemma get_by_filters_eq filters order_by limit offset descending s :
  clean s → next_fault s = false →
  known cls filters →
  (∀ f, order_by = Some f → f ≠ "" → hasattr cls f = true) →
  negative limit = false → negative offset = false →
  get_by_filters cls filters order_by limit offset descending s =
    (Ok (paginate (effective limit) (effective offset)
           (ordered (effective_order order_by descending)
              (filter (fun r => matchesb filters r = true) (rows s)))),
     advance s).
Proof.
  intros Hc Hf Hk Ho Hl Hof. unfold get_by_filters, try_except.
  unfold bind at 1.
  assert (Hq1 : ∃ q1,
    (if bool_decide (filters ≠ ∅)
     then conditions <- conditions_of cls filters ;;
          ret (q_filter conditions session_query)
     else ret session_query) s = (Ok q1, s)
    ∧ q_order q1 = None ∧ q_limit q1 = None ∧ q_offset q1 = None
    ∧ ∀ r, and_ (q_where q1) r = matchesb filters r).
  { case_bool_decide as Hne.
    - unfold bind. rewrite (conditions_of_ok _ _ Hk). unfold ret.
      eexists. split; [reflexivity|]. repeat split.
    - subst filters.
      eexists. split; [reflexivity|]. repeat split. }
  destruct Hq1 as (q1 & -> & Hqo & Hql & Hqf & Hw).
  unfold bind at 1.
  assert (Hq2 : ∃ q2,
    match order_by with
    | Some f =>
        if bool_decide (f ≠ "")
        then col <- column cls f ;; ret (q_order_by col descending q1)
        else ret q1
    | None => ret q1
    end s = (Ok q2, s)
    ∧ q_order q2 = effective_order order_by descending
    ∧ q_limit q2 = None ∧ q_offset q2 = None
    ∧ q_where q2 = q_where q1).
  { unfold effective_order. destruct order_by as [f|].
    - case_bool_decide as Hne.
      + unfold bind, column. rewrite (Ho f eq_refl Hne). unfold ret.
        eexists. split; [reflexivity|]. repeat split; assumption.
      + exists q1. repeat split; assumption.
    - exists q1. repeat split; assumption. }
  destruct Hq2 as (q2 & -> & Hqo2 & Hql2 & Hqf2 & Hw2).
  match goal with |- context [query_all cls ?q s] => set (q3 := q) end.
  assert (Hq3 : q_where q3 = q_where q2 ∧ q_order q3 = q_order q2
                ∧ q_limit q3 = effective limit
                ∧ q_offset q3 = effective offset).
  { subst q3. unfold effective.
    destruct limit as [n|], offset as [m|]; repeat case_bool_decide;
      cbn [q_set_limit q_set_offset q_where q_order q_limit q_offset];
      repeat split; assumption. }
  destruct Hq3 as (Hw3 & Ho3 & Hl3 & Hf3).
  rewrite (query_all_eq cls q3 s Hc), Hf, Hl3, Hf3.
  assert (Hneg : ∀ n, negative n = false → negative (effective n) = false).
  { intros [n|] Hn; [|reflexivity]. unfold effective.
    case_bool_decide; [exact Hn|reflexivity]. }
  rewrite (Hneg _ Hl), (Hneg _ Hof). cbn [orb].
  unfold select. rewrite Hl3, Hf3, Ho3, Hqo2, Hw3, Hw2.
  f_equal. f_equal. f_equal. f_equal.
  apply list_filter_iff. intros r. rewrite Hw. reflexivity.
Qed.

End Filters.

(** ** Repository.get_by_filters *)

Lemma scalar_le_total a b : scalar_le a b = true ∨ scalar_le b a = true.
Proof.
  destruct a, b; simpl; try (left; reflexivity); try (right; reflexivity).
  - destruct (Z.leb_spec z z0); [left; reflexivity|right; apply Z.leb_le; lia].
  - apply String.leb_total.
  - destruct b, b0; simpl; auto.
  - destruct (Z.leb_spec t t0); [left; reflexivity|right; apply Z.leb_le; lia].
Qed.

Lemma row_le_total col descending : Total (row_le col descending).
Proof.
  intros r1 r2. unfold row_le. destruct descending.
  - destruct (scalar_le_total (sort_key col r2) (sort_key col r1)); auto.
  - apply scalar_le_total.
Qed.

Lemma paginate_effective limit offset (l : list entity) :
  paginate (effective limit) (effective offset) l
  = paginate (effective limit) offset l.
Proof.
  unfold paginate, effective. destruct offset as [n|]; [|reflexivity].
  case_bool_decide as Hn; [reflexivity|]. subst n. reflexivity.
Qed.

Section GetByFilters.

Variable cls : model_class.

(** An ordering on a name that is not an attribute: AttributeError, which
    the method turns into DatabaseError before any statement is sent. *)
Lemma get_by_filters_bad_order filters f limit offset descending s :
  known cls filters → f ≠ "" → hasattr cls f = false →
  get_by_filters cls filters (Some f) limit offset descending s
  = (Err DatabaseError, s).
Proof.
  intros Hk Hne Hf. unfold get_by_filters, try_except. unfold bind at 1.
  assert (Hq1 : ∃ q1,
    (if bool_decide (filters ≠ ∅)
     then conditions <- conditions_of cls filters ;;
          ret (q_filter conditions session_query)
     else ret session_query) s = (Ok q1, s)).
  { case_bool_decide.
    - unfold bind. rewrite (conditions_of_ok _ _ _ Hk). eexists; reflexivity.
    - eexists; reflexivity. }
  destruct Hq1 as [q1 ->]. unfold bind at 1.
  rewrite bool_decide_eq_true_2 by assumption.
  unfold bind at 1. unfold column. rewrite Hf. reflexivity.
Qed.

(** C5, as the code has it.  On a clean session whose store answers, for
    a filter on attributes of the class and no negative bound:
    the rows kept are those on which every entry of the filter holds
    (equality for a scalar, membership for a list); with a non-empty
    [order_by] that is an attribute they are sorted on it, ascending
    unless [descending]; with one that is not an attribute the method
    raises DatabaseError; the offset is applied, and the limit is applied
    when it is not 0 (a limit of 0 is no limit). *)
Theorem get_by_filters_contract filters order_by limit offset descending s :
  clean s → next_fault s = false → known cls filters →
  negative limit = false → negative offset = false →
  let kept := filter (fun r => matchesb filters r = true) (rows s) in
  (∀ r, r ∈ kept ↔ r ∈ rows s ∧ matches filters r)
  ∧ match effective_order order_by descending with
    | Some (f, d) =>
        if hasattr cls f
        then ∃ full,
               full ≡ₚ kept ∧ Sorted (row_le f d) full
               ∧ get_by_filters cls filters order_by limit offset descending s
                 = (Ok (paginate (effective limit) offset full), advance s)
        else get_by_filters cls filters order_by limit offset descending s
             = (Err DatabaseError, s)
    | None =>
        get_by_filters cls filters order_by limit offset descending s
        = (Ok (paginate (effective limit) offset kept), advance s)
    end.
Proof.
  intros Hc Hf Hk Hl Ho kept. split.
  { intros r. subst kept. rewrite list_elem_of_filter, matchesb_iff. tauto. }
  destruct (effective_order order_by descending) as [[f d]|] eqn:He.
  - unfold effective_order in He. destruct order_by as [f'|]; [|discriminate].
    case_bool_decide as Hne; [|discriminate]. injection He as -> ->.
    destruct (hasattr cls f) eqn:Hat.
    + exists (merge_sort (row_le f d) kept).
      split; [apply merge_sort_Permutation|].
      split; [apply (@Sorted_merge_sort _ _ _ (row_le_total f d))|].
      rewrite get_by_filters_eq; try assumption.
      * unfold effective_order. rewrite bool_decide_eq_true_2 by assumption.
        rewrite paginate_effective. reflexivity.
      * intros f0 [= <-] _. exact Hat.
    + apply get_by_filters_bad_order; assumption.
  - rewrite get_by_filters_eq; try assumption.
    + rewrite He, paginate_effective. reflexivity.
    + intros f Hf' Hne. unfold effective_order in He. subst order_by.
      rewrite bool_decide_eq_true_2 in He by assumption. discriminate.
Qed.

End GetByFilters.

(** ** Repository.delete_many *)

Lemma length_filter_split (P : entity → bool) (l : list entity) :
  (length (filter (fun r => P r = true) l)
   + length (filter (fun r => P r ≠ true) l))%nat = length l.
Proof.
  induction l as [|r l IH]; [reflexivity|].
  destruct (P r) eqn:E.
  - rewrite filter_cons_True by assumption.
    rewrite (filter_cons_False (fun r => P r ≠ true)) by (rewrite E; auto).
    simpl. lia.
  - rewrite filter_cons_False by (rewrite E; discriminate).
    rewrite (filter_cons_True (fun r => P r ≠ true)) by (rewrite E; discriminate).
    simpl. lia.
Qed.

Section DeleteMany.

Variable cls : model_class.

Lemma delete_many_eq filters s :
  clean s → next_fault s = false → next_fault (advance s) = false →
  known cls filters →
  delete_many cls filters s =
    (Ok (Z.of_nat (length (filter (fun r => matchesb filters r = true) (rows s)))),
     set_rows (filter (fun r => matchesb filters r ≠ true) (rows s))
              (advance (advance s))).
Proof.
  intros Hc Hf0 Hf1 Hk. unfold delete_many, try_except.
  unfold bind at 1. rewrite (conditions_of_ok _ _ _ Hk).
  unfold bind at 1. unfold query_count. unfold bind at 1.
  rewrite (query_all_eq cls _ s Hc), Hf0.
  cbn [q_filter session_query q_limit q_offset negative orb]. unfold ret at 1.
  unfold bind at 1. unfold query_delete. unfold bind at 1.
  rewrite (session_flush_clean cls _ (clean_advance _ Hc)).
  unfold bind at 1. rewrite execute_eq, Hf1.
  unfold bind at 1.
  rewrite session_flush_clean.
  2:{ destruct Hc; split; assumption. }
  unfold ret. reflexivity.
Qed.

(** C7.  On a clean session whose store answers, for a filter on
    attributes of the class, [delete_many] removes the rows on which every
    entry of the filter holds, keeps every other row as it is and where it
    is, and returns the number of rows removed. *)
Theorem delete_many_contract filters s :
  clean s → healthy 2 s → known cls filters →
  ∃ n s',
    delete_many cls filters s = (Ok (Z.of_nat n), s')
    ∧ rows s' = filter (fun r => matchesb filters r ≠ true) (rows s)
    ∧ (∀ r, r ∈ rows s' ↔ r ∈ rows s ∧ ¬ matches filters r)
    ∧ n = length (filter (fun r => matchesb filters r = true) (rows s))
    ∧ (length (rows s') + n)%nat = length (rows s)
    ∧ committed s' = committed s
    ∧ clean s'.
Proof.
  intros Hc Hh Hk.
  pose proof (healthy_next _ _ Hh) as Hf0.
  pose proof (healthy_advance _ _ Hh) as Hh1.
  pose proof (healthy_next _ _ Hh1) as Hf1.
  rewrite (delete_many_eq _ _ Hc Hf0 Hf1 Hk).
  eexists _, _. split; [reflexivity|]. cbn [set_rows rows committed advance].
  split; [reflexivity|]. split.
  { intros r. rewrite list_elem_of_filter, <- matchesb_iff. tauto. }
  split; [reflexivity|]. split.
  { rewrite Nat.add_comm. apply length_filter_split. }
  split; [reflexivity|]. destruct Hc; split; assumption.
Qed.

End DeleteMany.

(** ** Repository.upsert *)

Section Upsert.

Variable cls : model_class.

Lemma unique_filters_lookup_acc (data : dict) unique_fields : ∀ (acc : dict) k,
  foldl (fun acc field =>
           match data !! field with
           | Some v => <[field := v]> acc
           | None => acc
           end) acc unique_fields !! k
  = if bool_decide (k ∈ unique_fields)
    then match data !! k with Some v => Some v | None => acc !! k end
    else acc !! k.
Proof.
  induction unique_fields as [|f l IH]; intros acc k; cbn [foldl].
  - rewrite bool_decide_eq_false_2; [reflexivity|apply not_elem_of_nil].
  - rewrite IH. destruct (decide (k = f)) as [->|Hne].
    + rewrite (bool_decide_eq_true_2 (f ∈ f :: l)) by left.
      destruct (data !! f) as [v|] eqn:Hd.
      * rewrite lookup_insert_eq. destruct (bool_decide (f ∈ l)); reflexivity.
      * destruct (bool_decide (f ∈ l)); reflexivity.
    + assert (Hacc : match data !! f with
                     | Some v => <[f := v]> acc
                     | None => acc
                     end !! k = acc !! k).
      { destruct (data !! f); [apply lookup_insert_ne; congruence|reflexivity]. }
      rewrite Hacc.
      destruct (bool_decide (k ∈ l)) eqn:E.
      * apply bool_decide_eq_true in E.
        rewrite bool_decide_eq_true_2 by (right; assumption). reflexivity.
      * apply bool_decide_eq_false in E.
        rewrite bool_decide_eq_false_2; [reflexivity|].
        rewrite elem_of_cons. tauto.
Qed.

(** The lookup filter of [upsert] is [data] restricted to the unique
    fields. *)
Lemma unique_filters_lookup unique_fields data k :
  unique_filters unique_fields data !! k
  = if bool_decide (k ∈ unique_fields) then data !! k else None.
Proof.
  unfold unique_filters. rewrite unique_filters_lookup_acc, lookup_empty.
  destruct (bool_decide _); [destruct (data !! k)|]; reflexivity.
Qed.

Lemma conditions_of_inv filters s c s' :
  conditions_of cls filters s = (Ok c, s') → known cls filters.
Proof.
  unfold conditions_of, known. intros H k v Hk.
  apply elem_of_map_to_list in Hk.
  revert s c s' H Hk. generalize (map_to_list filters) as l.
  induction l as [|kv l IH]; intros s c s' H Hk; [inversion Hk|].
  cbn [for_each] in H. unfold bind at 1 2 in H. unfold column at 1 in H.
  destruct (hasattr cls kv.1) eqn:Hat; [|discriminate H].
  unfold ret at 1 2 in H. unfold bind at 1 in H.
  apply elem_of_cons in Hk as [<-|Hk]; [exact Hat|].
  match type of H with context [for_each ?f l s] =>
    destruct (for_each f l s) as [[c1|x] s1] eqn:Hl end; [|discriminate H].
  eapply IH; eassumption.
Qed.

(** A successful unordered, unbounded [get_by_filters] on a clean
    session returned the rows the filter keeps, in the order of the
    table, with one statement. *)
Lemma get_by_filters_ok_inv filters l s s1 :
  clean s →
  get_by_filters cls filters None None None false s = (Ok l, s1) →
  l = filter (fun r => matchesb filters r = true) (rows s)
  ∧ s1 = advance s ∧ next_fault s = false ∧ known cls filters.
Proof.
  intros Hc H.
  assert (Hk : known cls filters).
  { revert H. unfold get_by_filters, try_except. unfold bind at 1.
    case_bool_decide as Hne.
    - unfold bind at 1.
      destruct (conditions_of cls filters s) as [[c|x] s'] eqn:Hco.
      + intros _. eapply conditions_of_inv; eassumption.
      + discriminate.
    - intros _. subst filters. intros k v Hkv.
      rewrite lookup_empty in Hkv. discriminate. }
  destruct (next_fault s) eqn:Hf.
  - exfalso. revert H. unfold get_by_filters, try_except. unfold bind at 1.
    assert (Hq1 : ∃ q1,
      (if bool_decide (filters ≠ ∅)
       then conditions <- conditions_of cls filters ;;
            ret (q_filter conditions session_query)
       else ret session_query) s = (Ok q1, s)).
    { case_bool_decide.
      - unfold bind. rewrite (conditions_of_ok _ _ _ Hk). eexists; reflexivity.
      - eexists; reflexivity. }
    destruct Hq1 as [q1 ->]. unfold bind at 1. unfold ret at 1.
    rewrite (query_all_eq cls _ s Hc), Hf. discriminate.
  - rewrite get_by_filters_eq in H; try assumption; try reflexivity.
    + injection H as <- <-. repeat split; assumption.
    + intros f [=].
Qed.

(** The update branch of [upsert]: what is left to run after the lookup
    returned [first :: rest]. *)
Lemma upsert_found_eq unique_fields data s first rest :
  get_by_filters cls (unique_filters unique_fields data) None None None false s
  = (Ok (first :: rest), advance s) →
  upsert cls unique_fields data s =
    try_except
      (let e := <["updated_at" := Scalar (STime (clock s + 1))]>
                  (set_fields cls data first) in
       session_flush cls [(pk first, e)] ;;
       entity <- session_refresh e ;; ret (entity, false))
      rollback_and_raise (advance s).
Proof.
  intros Hg. unfold upsert, try_except. unfold bind at 1. rewrite Hg.
  unfold bind at 1. reflexivity.
Qed.

(** The create branch of [upsert]. *)
Lemma upsert_missing_eq unique_fields data s s1 :
  get_by_filters cls (unique_filters unique_fields data) None None None false s
  = (Ok [], s1) →
  upsert cls unique_fields data s =
    match create cls (inl data) s1 with
    | (Ok e, s') => (Ok (e, true), s')
    | (Err x, s') => (Err DatabaseError, (session_rollback s').2)
    end.
Proof.
  intros Hg. unfold upsert, try_except. unfold bind at 1. rewrite Hg.
  unfold bind at 1.
  destruct (create cls (inl data) s1) as [[e|x] s']; reflexivity.
Qed.

(** The outcome of the update branch. *)
Lemma upsert_found_spec unique_fields data s first rest :
  clean s → first ∈ rows s →
  get_by_filters cls (unique_filters unique_fields data) None None None false s
  = (Ok (first :: rest), advance s) →
  let e := <["updated_at" := Scalar (STime (clock s + 1))]>
             (set_fields cls data first) in
  match upsert cls unique_fields data s with
  | (Ok (e', created), s') =>
      created = false ∧ e' = e
      ∧ rows s' = replace_row (pk first) e (rows s)
      ∧ committed s' = committed s ∧ clean s'
  | (Err x, s') => x = DatabaseError ∧ rolled_back s s'
  end
  ∧ (healthy 2 (advance s) →
     check_row cls (filter (fun r => pk r ≠ pk first) (rows s)) e = Ok tt →
     ∃ s', upsert cls unique_fields data s = (Ok (e, false), s')).
Proof.
  intros Hc Hin Hg e.
  rewrite (upsert_found_eq _ _ _ _ _ Hg). fold e. cbv zeta.
  unfold try_except.
  rewrite (write_back_eq cls (fun x => (x, false)) first e (advance s)
             (clean_advance _ Hc) Hin).
  cbn [advance rows].
  destruct (next_fault (advance s)) eqn:Hf1.
  { split; [repeat split|]. intros Hh.
    rewrite (healthy_next _ _ Hh) in Hf1. discriminate. }
  destruct (check_row cls _ e) as [[]|x] eqn:Hck.
  2:{ split; [repeat split|]. intros _ [=]. }
  cbv zeta. rewrite next_fault_set_rows.
  destruct (next_fault (advance (advance s))) eqn:Hf2.
  { split; [repeat split|]. intros Hh.
    rewrite (healthy_next _ _ (healthy_advance _ _ Hh)) in Hf2.
    discriminate. }
  destruct Hc as [Hp Hd].
  split; [repeat split; assumption|].
  intros _ _. eexists. reflexivity.
Qed.

(** C1.  On a clean session, the lookup filter of [upsert] is [data]
    restricted to the unique fields.  When [get_by_filters] returns at
    least one entity, the first one is the object worked on: every key of
    [data] that is an attribute of the class is overwritten, the other
    fields stay, [updated_at] is set to the current time; the method
    returns that object with created = false and the row is replaced in
    place, unless the store refuses the write or fails, in which case
    DatabaseError is raised on a rolled-back session.  When
    [get_by_filters] returns nothing, the entity is created by [create]
    and returned with created = true. *)
Theorem upsert_contract unique_fields data s :
  clean s →
  let filters := unique_filters unique_fields data in
  (∀ k, filters !! k
        = if bool_decide (k ∈ unique_fields) then data !! k else None)
  ∧ match get_by_filters cls filters None None None false s with
    | (Ok (first :: _), s1) =>
        let now := Scalar (STime (clock s1)) in
        let e := <["updated_at" := now]> (set_fields cls data first) in
        e !! "updated_at" = Some now
        ∧ (∀ k, k ≠ "updated_at" → e !! k = field_after cls data first k)
        ∧ match upsert cls unique_fields data s with
          | (Ok (e', created), s') =>
              created = false ∧ e' = e
              ∧ rows s' = replace_row (pk first) e (rows s)
              ∧ committed s' = committed s ∧ clean s'
          | (Err x, s') => x = DatabaseError ∧ rolled_back s s'
          end
        ∧ (healthy 2 s1 →
           check_row cls (filter (fun r => pk r ≠ pk first) (rows s)) e = Ok tt →
           ∃ s', upsert cls unique_fields data s = (Ok (e, false), s'))
    | (Ok [], s1) =>
        match create cls (inl data) s1 with
        | (Ok e, s') => upsert cls unique_fields data s = (Ok (e, true), s')
        | (Err _, _) =>
            ∃ s', upsert cls unique_fields data s = (Err DatabaseError, s')
                  ∧ rolled_back s s'
        end
    | (Err _, _) =>
        ∃ s', upsert cls unique_fields data s = (Err DatabaseError, s')
              ∧ rolled_back s s'
    end.
Proof.
  intros Hc filters. split; [intros k; apply unique_filters_lookup|].
  subst filters.
  destruct (get_by_filters cls (unique_filters unique_fields data)
              None None None false s) as [[l|x] s1] eqn:Hg.
  - destruct (get_by_filters_ok_inv _ _ _ _ Hc Hg) as (Hl & -> & Hf0 & Hk).
    destruct l as [|first rest].
    + rewrite (upsert_missing_eq _ _ _ _ Hg).
      destruct (create cls (inl data) (advance s)) as [[e|x] s'] eqn:Hcr;
        [reflexivity|].
      eexists. split; [reflexivity|].
      pose proof (kc_create cls (inl data) (advance s)) as Hkc.
      rewrite Hcr in Hkc. simpl in Hkc.
      repeat split; simpl; assumption.
    + assert (Hin : first ∈ rows s).
      { assert (H : first ∈ first :: rest) by left.
        rewrite Hl in H. apply list_elem_of_filter in H as [_ H]. exact H. }
      cbn [advance clock]. cbv zeta.
      split; [apply lookup_insert_eq|]. split.
      { intros k Hne. rewrite lookup_insert_ne by congruence.
        apply set_fields_lookup. }
      exact (upsert_found_spec _ _ _ _ _ Hc Hin Hg).
  - unfold upsert, try_except. unfold bind at 1. rewrite Hg.
    eexists. split; [reflexivity|].
    pose proof (kc_get_by_filters cls (unique_filters unique_fields data)
                  None None None false s) as Hkc.
    rewrite Hg in Hkc. simpl in Hkc.
    repeat split; simpl; assumption.
Qed.

Lemma unique_filters_disjoint unique_fields (data : dict) :
  (∀ f, f ∈ unique_fields → data !! f = None) →
  unique_filters unique_fields data = ∅.
Proof.
  intros H. apply map_eq. intros k.
  rewrite unique_filters_lookup, lookup_empty.
  case_bool_decide as Hk; [apply H; exact Hk|reflexivity].
Qed.

(** C10.  When no unique field is a key of [data], the lookup filter is
    empty and holds on every row, so [get_by_filters] returns the whole
    table; on a table that is not empty [upsert] then works on the first
    row of the table: it returns it updated with created = false and the
    table keeps its length, or it raises DatabaseError on a rolled-back
    session; it never creates. *)
Theorem upsert_without_unique_key unique_fields data s first rest :
  clean s → rows s = first :: rest →
  (∀ f, f ∈ unique_fields → data !! f = None) →
  let e := <["updated_at" := Scalar (STime (clock s + 1))]>
             (set_fields cls data first) in
  unique_filters unique_fields data = ∅
  ∧ (∀ r, matches ∅ r)
  ∧ (next_fault s = false →
     get_by_filters cls (unique_filters unique_fields data)
                    None None None false s
     = (Ok (rows s), advance s))
  ∧ match upsert cls unique_fields data s with
    | (Ok (e', created), s') =>
        created = false ∧ e' = e
        ∧ rows s' = replace_row (pk first) e (rows s)
        ∧ length (rows s') = length (rows s)
    | (Err x, s') => x = DatabaseError ∧ rolled_back s s'
    end
  ∧ (healthy 3 s →
     check_row cls (filter (fun r => pk r ≠ pk first) (rows s)) e = Ok tt →
     ∃ s', upsert cls unique_fields data s = (Ok (e, false), s')).
Proof.
  intros Hc Hrows Hdis e.
  pose proof (unique_filters_disjoint _ _ Hdis) as Hempty.
  split; [exact Hempty|].
  split. { intros r k v Hk. rewrite lookup_empty in Hk. discriminate. }
  assert (Hall : filter (fun r => matchesb ∅ r = true) (rows s) = rows s).
  { apply filter_all_true. apply matchesb_empty. }
  assert (Hget : next_fault s = false →
            get_by_filters cls (unique_filters unique_fields data)
                           None None None false s
            = (Ok (rows s), advance s)).
  { intros Hf. rewrite Hempty, get_by_filters_eq; try assumption;
      try reflexivity.
    - cbn [effective effective_order paginate ordered]. rewrite Hall.
      reflexivity.
    - intros k v Hk. rewrite lookup_empty in Hk. discriminate.
    - intros f [=]. }
  split; [exact Hget|].
  assert (Hin : first ∈ rows s) by (rewrite Hrows; left).
  destruct (next_fault s) eqn:Hf.
  - split.
    + destruct (upsert cls unique_fields data s) as [[[e' c]|x] s'] eqn:Hu.
      * exfalso. revert Hu. unfold upsert, try_except. unfold bind at 1.
        destruct (get_by_filters cls (unique_filters unique_fields data)
                    None None None false s) as [[l|x] s1] eqn:Hg.
        -- destruct (get_by_filters_ok_inv _ _ _ _ Hc Hg) as (_ & _ & Hf' & _).
           congruence.
        -- discriminate.
      * exact (upsert_fails cls _ _ _ _ _ Hu).
    + intros Hh. rewrite (healthy_next _ _ Hh) in Hf. discriminate.
  - specialize (Hget eq_refl). rewrite Hrows in Hget at 1.
    destruct (upsert_found_spec _ _ _ _ _ Hc Hin Hget) as [Hm Hok].
    fold e in Hm, Hok. split.
    + destruct (upsert cls unique_fields data s) as [[[e' c]|x] s'];
        [|exact Hm].
      destruct Hm as (-> & -> & Hr & _). repeat split; try assumption.
      rewrite Hr. unfold replace_row. apply length_fmap.
    + intros Hh. apply Hok. apply healthy_advance. exact Hh.
Qed.

End Upsert.

(** ** Repository.bulk_upsert *)

Section BulkUpsert.

Variable cls : model_class.

Lemma for_each_app {A B} (f : A → M B) l1 l2 s :
  for_each f (l1 ++ l2) s =
    match for_each f l1 s with
    | (Ok r1, s1) =>
        match for_each f l2 s1 with
        | (Ok r2, s2) => (Ok (r1 ++ r2), s2)
        | (Err x, s2) => (Err x, s2)
        end
    | (Err x, s1) => (Err x, s1)
    end.
Proof.
  revert s. induction l1 as [|a l1 IH]; intros s; cbn [app for_each].
  - unfold ret at 1. destruct (for_each f l2 s) as [[r2|x] s2]; reflexivity.
  - unfold bind, ret. destruct (f a s) as [[b|x] s1]; [|reflexivity].
    rewrite IH.
    destruct (for_each f l1 s1) as [[r1|x] s2]; [|reflexivity].
    destruct (for_each f l2 s2) as [[r2|x] s3]; reflexivity.
Qed.

Lemma created_count_cons r rs :
  created_count (r :: rs) = (if r.2 then 1 else 0) + created_count rs.
Proof.
  unfold created_count. destruct r as [e []]; cbn [snd].
  - rewrite filter_cons_True by reflexivity. cbn [length]. lia.
  - rewrite filter_cons_False by discriminate. lia.
Qed.

Lemma updated_count_cons r rs :
  updated_count (r :: rs) = (if r.2 then 0 else 1) + updated_count rs.
Proof.
  unfold updated_count. destruct r as [e []]; cbn [snd].
  - rewrite filter_cons_False by discriminate. lia.
  - rewrite filter_cons_True by reflexivity. cbn [length]. lia.
Qed.

Lemma counts_sum rs :
  created_count rs + updated_count rs = Z.of_nat (length rs).
Proof.
  induction rs as [|r rs IH]; [reflexivity|].
  rewrite created_count_cons, updated_count_cons. cbn [length].
  destruct r.2; lia.
Qed.

(** The loop of [bulk_upsert] is the sequence of the upserts, with the
    accumulators following their results. *)
Lemma bulk_upsert_loop unique_fields items : ∀ entities created updated s,
  for_fold (bulk_upsert_step cls unique_fields) (entities, created, updated)
           items s =
    match for_each (upsert cls unique_fields) items s with
    | (Ok rs, s') =>
        (Ok (entities ++ rs.*1, created + created_count rs,
             updated + updated_count rs), s')
    | (Err x, s') => (Err x, s')
    end.
Proof.
  induction items as [|item items IH]; intros entities created updated s;
    cbn [for_fold for_each].
  - unfold ret. rewrite app_nil_r.
    change (created_count []) with 0. change (updated_count []) with 0.
    rewrite !Z.add_0_r. reflexivity.
  - unfold bulk_upsert_step at 1. unfold bind, ret.
    destruct (upsert cls unique_fields item s) as [[[e c]|x] s1];
      [|reflexivity].
    destruct c; rewrite IH;
      destruct (for_each (upsert cls unique_fields) items s1) as [[rs|x] s2];
      try reflexivity; unfold ret;
      rewrite created_count_cons, updated_count_cons; cbn [fmap list_fmap fst snd];
      rewrite <- app_assoc; cbn [app];
      rewrite ?Z.add_0_l, ?Z.add_assoc; reflexivity.
Qed.

Lemma for_each_length {A B} (f : A → M B) l : ∀ s rs s',
  for_each f l s = (Ok rs, s') → length rs = length l.
Proof.
  induction l as [|a l IH]; intros s rs s'; cbn [for_each].
  - intros [= <- <-]. reflexivity.
  - unfold bind, ret. destruct (f a s) as [[b|x] s1]; [|discriminate].
    destruct (for_each f l s1) as [[r1|x] s2] eqn:E; [|discriminate].
    intros [= <- <-]. cbn [length]. f_equal. eapply IH. exact E.
Qed.

(** One upsert reports created = false exactly when its lookup found an
    entity. *)
Lemma upsert_flag unique_fields item s e created s' :
  clean s →
  upsert cls unique_fields item s = (Ok (e, created), s') →
  created = negb (has_match cls unique_fields item s) ∧ clean s'.
Proof.
  intros Hc Hu. unfold has_match, run.
  destruct (get_by_filters cls (unique_filters unique_fields item)
              None None None false s) as [[l|x] s1] eqn:Hg.
  - destruct (get_by_filters_ok_inv _ _ _ _ _ Hc Hg) as (Hl & -> & Hf0 & Hk).
    destruct l as [|first rest]; cbn [fst negb].
    + rewrite (upsert_missing_eq _ _ _ _ _ Hg) in Hu.
      destruct (create cls (inl item) (advance s)) as [[e0|x] s0] eqn:Hcr;
        [|discriminate].
      injection Hu as <- <- <-. split; [reflexivity|].
      apply (create_ok _ _ _ _ _ (clean_advance _ Hc) Hcr).
    + assert (Hin : first ∈ rows s).
      { assert (H : first ∈ first :: rest) by left.
        rewrite Hl in H. apply list_elem_of_filter in H as [_ H]. exact H. }
      destruct (upsert_found_spec _ _ _ _ _ _ Hc Hin Hg) as [Hm _].
      rewrite Hu in Hm. destruct Hm as (-> & _ & _ & _ & Hcl).
      split; [reflexivity|exact Hcl].
  - exfalso. revert Hu. unfold upsert, try_except. unfold bind at 1.
    rewrite Hg. discriminate.
Qed.

(** C3, as the code has it.  [bulk_upsert] is the sequence of the
    upserts of the items, in list order, each in the session the earlier
    ones left.  When all succeed it returns their entities with the number
    of those that reported created = true and the number that reported
    created = false, which add up to the number of items; an item reports
    created = false exactly when its own lookup, at its turn, finds an
    entity.  When one fails, DatabaseError is raised on a rolled-back
    session, whatever items follow. *)
Theorem bulk_upsert_sequential unique_fields items s :
  match for_each (upsert cls unique_fields) items s with
  | (Ok rs, s') =>
      bulk_upsert cls unique_fields items s
      = (Ok (rs.*1, created_count rs, updated_count rs), s')
      ∧ length rs = length items
      ∧ created_count rs + updated_count rs = Z.of_nat (length items)
  | (Err _, _) =>
      ∃ s', bulk_upsert cls unique_fields items s = (Err DatabaseError, s')
            ∧ rolled_back s s'
  end
  ∧ (∀ item s0 e created s1,
       clean s0 →
       upsert cls unique_fields item s0 = (Ok (e, created), s1) →
       created = negb (has_match cls unique_fields item s0) ∧ clean s1)
  ∧ (∀ done item rest x s1,
       for_each (upsert cls unique_fields) (done ++ [item]) s = (Err x, s1) →
       bulk_upsert cls unique_fields (done ++ item :: rest) s
       = bulk_upsert cls unique_fields (done ++ [item]) s).
Proof.
  split; [|split].
  - unfold bulk_upsert, try_except. rewrite bulk_upsert_loop.
    destruct (for_each (upsert cls unique_fields) items s) as [[rs|x] s1] eqn:Hl.
    + rewrite !Z.add_0_l. cbn [app]. split; [reflexivity|].
      pose proof (for_each_length _ _ _ _ _ Hl) as Hlen.
      split; [exact Hlen|]. rewrite counts_sum, Hlen. reflexivity.
    + eexists. split; [reflexivity|].
      assert (Hkc : keeps_committed (for_each (upsert cls unique_fields) items)).
      { apply kc_for_each. intros item. apply kc_upsert. }
      specialize (Hkc s). rewrite Hl in Hkc. simpl in Hkc.
      repeat split; simpl; assumption.
  - intros item s0 e created s1. apply upsert_flag.
  - intros done item rest x s1 Herr.
    unfold bulk_upsert, try_except. rewrite !bulk_upsert_loop.
    replace (done ++ item :: rest) with ((done ++ [item]) ++ rest)
      by (rewrite <- app_assoc; reflexivity).
    rewrite (for_each_app _ (done ++ [item]) rest), Herr. reflexivity.
Qed.

End BulkUpsert.

(** ** Repository.bulk_create and the failure of a mutating method *)

Section BulkCreate.

Variable cls : model_class.

(** C2.  On a clean session [bulk_create] either appends one row per
    item to the table, all in the one flush, and returns them, or raises
    DatabaseError on a rolled-back session, where the table is the
    durable table of before the call; and every mutating method that
    fails raises DatabaseError on a rolled-back session. *)
Theorem bulk_create_all_or_nothing items s :
  clean s →
  match bulk_create cls items s with
  | (Ok es, s') =>
      rows s' = rows s ++ es
      ∧ length es = length items
      ∧ Forall2 (fun item e =>
                   ∀ k v, item !! k = Some v → v ≠ None_ → e !! k = Some v)
                items es
      ∧ committed s' = committed s
      ∧ clean s'
  | (Err x, s') =>
      x = DatabaseError ∧ rolled_back s s' ∧ rows s' = committed s
  end
  ∧ (∀ data, fails_rolled_back (create cls data))
  ∧ (∀ batch, fails_rolled_back (bulk_create cls batch))
  ∧ (∀ entity_id data, fails_rolled_back (update cls entity_id data))
  ∧ (∀ entity_id, fails_rolled_back (delete cls entity_id))
  ∧ (∀ filters, fails_rolled_back (delete_many cls filters))
  ∧ (∀ unique_fields data, fails_rolled_back (upsert cls unique_fields data))
  ∧ (∀ unique_fields batch,
       fails_rolled_back (bulk_upsert cls unique_fields batch))
  ∧ fails_rolled_back (commit cls).
Proof.
  intros Hc. split.
  - destruct (bulk_create cls items s) as [[es|x] s'] eqn:Hb.
    + destruct (bulk_create_ok _ _ _ _ _ Hc Hb) as (Hr & Hl & Hf & _ & Hcm & Hcl).
      repeat split; try assumption; apply Hcl.
    + destruct (bulk_create_fails cls _ _ _ _ Hb) as [-> Hrb].
      split; [reflexivity|]. split; [exact Hrb|]. apply Hrb.
  - split; [intros data; apply create_fails|].
    split; [intros batch; apply bulk_create_fails|].
    split; [intros entity_id data; apply update_fails|].
    split; [intros entity_id; apply delete_fails|].
    split; [intros filters; apply delete_many_fails|].
    split; [intros unique_fields data; apply upsert_fails|].
    split; [intros unique_fields batch; apply bulk_upsert_fails|].
    apply commit_fails.
Qed.

End BulkCreate.

(** ** Runs of the repository *)

Lemma succeeds_ok {A} (m : M A) s :
  succeeds m s = true → ∃ a s', m s = (Ok a, s').
Proof.
  unfold succeeds, run. destruct (m s) as [[a|x] s']; [eauto|discriminate].
Qed.

Lemma clean_empty_session : clean empty_session.
Proof. split; reflexivity. Qed.

Lemma clean_one_row_session : clean one_row_session.
Proof. compute_done. Qed.

Lemma clean_two_row_session : clean two_row_session.
Proof. compute_done. Qed.

Lemma known_empty cls : known cls ∅.
Proof. intros k v Hk. rewrite lookup_empty in Hk. discriminate. Qed.

(** [create] of a first [Configuracao]: the identifier 1, the defaults of
    the columns and both timestamps are on the entity returned. *)
Example create_run :
  create Configuracao (inl (cfg "a" "1")) empty_session
  = (Ok row_a, one_row_session).
Proof. compute_done. Qed.

Example row_a_fields :
  row_a !! "id" = Some (Scalar (SInt 1))
  ∧ row_a !! "chave" = Some (Scalar (SStr "a"))
  ∧ row_a !! "tipo" = Some (Scalar (SStr "string"))
  ∧ row_a !! "created_at" = Some (Scalar (STime 101)).
Proof. compute_done. Qed.

(** A duplicate of a unique column in a batch: nothing of the batch stays. *)
Example bulk_create_duplicate_run :
  run (bulk_create Configuracao [cfg "a" "1"; cfg "a" "2"]) empty_session
  = Err DatabaseError
  ∧ rows (exec (bulk_create Configuracao [cfg "a" "1"; cfg "a" "2"])
               empty_session) = [].
Proof. compute_done. Qed.

Lemma upsert_contract_witness :
  clean one_row_session
  ∧ ∃ e s',
      upsert Configuracao ["chave"] (cfg "a" "2") one_row_session
      = (Ok (e, false), s')
      ∧ e !! "valor" = Some (Scalar (SStr "2"))
      ∧ e !! "id" = row_a !! "id".
Proof.
  split; [exact clean_one_row_session|].
  pose proof (upsert_contract Configuracao ["chave"] (cfg "a" "2")
                one_row_session clean_one_row_session) as H.
  cbv zeta in H. destruct H as [_ H].
  assert (Hg : get_by_filters Configuracao
                 (unique_filters ["chave"] (cfg "a" "2")) None None None false
                 one_row_session
               = (Ok [row_a], advance one_row_session)) by compute_done.
  rewrite Hg in H. destruct H as (_ & Hfields & _ & Hok).
  match type of Hok with _ → ?c = Ok tt → _ =>
    assert (Hck : c = Ok tt) by compute_done end.
  destruct (Hok ltac:(apply healthy_nil; reflexivity) Hck) as [s' Hu].
  eexists _, s'. split; [exact Hu|].
  split; (rewrite Hfields by discriminate; compute_done).
Defined.

Lemma bulk_create_all_or_nothing_witness :
  clean empty_session
  ∧ ∃ es s',
      bulk_create Configuracao [cfg "b" "2"; cfg "a" "1"] empty_session
      = (Ok es, s')
      ∧ rows s' = rows empty_session ++ es
      ∧ length es = 2%nat.
Proof.
  split; [exact clean_empty_session|].
  destruct (bulk_create_all_or_nothing Configuracao [cfg "b" "2"; cfg "a" "1"]
              empty_session clean_empty_session) as [H _].
  destruct (succeeds_ok (bulk_create Configuracao [cfg "b" "2"; cfg "a" "1"])
              empty_session ltac:(compute_done)) as (es & s' & Hb).
  rewrite Hb in H. destruct H as (Hr & Hl & _).
  exists es, s'. repeat split; assumption.
Defined.

Lemma update_contract_witness :
  clean one_row_session ∧ healthy 3 one_row_session
  ∧ ∃ e s',
      update Configuracao 1 (cfg "a" "9") one_row_session = (Ok (Some e), s')
      ∧ e !! "valor" = Some (Scalar (SStr "9"))
      ∧ e !! "nivel" = row_a !! "nivel"
      ∧ e !! "updated_at" = Some (Scalar (STime 103)).
Proof.
  assert (Hh : healthy 3 one_row_session) by (apply healthy_nil; reflexivity).
  split; [exact clean_one_row_session|]. split; [exact Hh|].
  pose proof (update_contract Configuracao 1 (cfg "a" "9") one_row_session
                clean_one_row_session Hh) as H.
  assert (Hl : lookup_id 1 (rows one_row_session) = Some row_a) by compute_done.
  rewrite Hl in H. cbv zeta in H. destruct H as (Hnow & Hfields & _ & Hres).
  match type of Hres with match ?c with _ => _ end =>
    assert (Hck : c = Ok tt) by compute_done; rewrite Hck in Hres end.
  destruct Hres as (s' & Hu & _).
  eexists _, s'. split; [exact Hu|].
  split; [rewrite Hfields by discriminate; compute_done|].
  split; [rewrite Hfields by discriminate; compute_done|].
  rewrite Hnow. compute_done.
Defined.

Lemma get_by_filters_contract_witness :
  clean two_row_session ∧ next_fault two_row_session = false
  ∧ known Configuracao ∅
  ∧ ∃ full,
      full ≡ₚ filter (fun r => matchesb ∅ r = true) (rows two_row_session)
      ∧ Sorted (row_le "chave" false) full
      ∧ get_by_filters Configuracao ∅ (Some "chave") (Some 0) None false
                       two_row_session
        = (Ok full, advance two_row_session).
Proof.
  assert (Hf : next_fault two_row_session = false) by compute_done.
  split; [exact clean_two_row_session|]. split; [exact Hf|].
  split; [apply known_empty|].
  pose proof (get_by_filters_contract Configuracao ∅ (Some "chave") (Some 0)
                None false two_row_session clean_two_row_session Hf
                (known_empty _) eq_refl eq_refl) as H.
  cbv zeta in H. destruct H as [_ H].
  assert (He : effective_order (Some "chave") false = Some ("chave", false))
    by compute_done.
  assert (Hat : hasattr Configuracao "chave" = true) by compute_done.
  rewrite He, Hat in H. destruct H as (full & Hp & Hs & Hget).
  exists full. repeat split; assumption.
Defined.

Lemma create_then_get_by_id_witness :
  clean empty_session
  ∧ create Configuracao (inl (cfg "a" "1")) empty_session
    = (Ok row_a, one_row_session)
  ∧ next_fault one_row_session = false
  ∧ ∃ n, pk row_a = Scalar (SInt n)
         ∧ get_by_id Configuracao n one_row_session
           = (Ok (Some row_a), advance one_row_session).
Proof.
  assert (Hf : next_fault one_row_session = false) by compute_done.
  split; [exact clean_empty_session|]. split; [exact create_run|].
  split; [exact Hf|].
  destruct (create_then_get_by_id Configuracao (inl (cfg "a" "1")) row_a
              empty_session one_row_session clean_empty_session create_run Hf)
    as (n & Hid & Hget & _).
  exists n. split; assumption.
Defined.

Lemma known_chave v : known Configuracao {[ "chave" := v ]}.
Proof.
  intros k w Hk. apply lookup_singleton_Some in Hk as [<- _]. compute_done.
Qed.

Lemma delete_many_contract_witness :
  clean two_row_session ∧ healthy 2 two_row_session
  ∧ known Configuracao {[ "chave" := Scalar (SStr "a") ]}
  ∧ ∃ s',
      delete_many Configuracao {[ "chave" := Scalar (SStr "a") ]} two_row_session
      = (Ok 1, s')
      ∧ length (rows s') = 1%nat.
Proof.
  assert (Hh : healthy 2 two_row_session) by (apply healthy_nil; compute_done).
  split; [exact clean_two_row_session|]. split; [exact Hh|].
  split; [apply known_chave|].
  destruct (delete_many_contract Configuracao {[ "chave" := Scalar (SStr "a") ]}
              two_row_session clean_two_row_session Hh (known_chave _))
    as (n & s' & Hd & _ & _ & Hn & Hlen & _).
  assert (Hn1 : length (filter (fun r => matchesb {[ "chave" := Scalar (SStr "a") ]} r = true)
                          (rows two_row_session)) = 1%nat) by compute_done.
  assert (Hl2 : length (rows two_row_session) = 2%nat) by compute_done.
  rewrite Hn1 in Hn. subst n. exists s'. split; [exact Hd|]. lia.
Defined.

Lemma absent_is_not_an_error_witness :
  clean empty_session ∧ lookup_id 7 (rows empty_session) = None
  ∧ get_by_id Configuracao 7 empty_session = (Ok None, advance empty_session)
  ∧ update Configuracao 7 (cfg "a" "1") empty_session
    = (Ok None, advance empty_session)
  ∧ delete Configuracao 7 empty_session = (Ok false, advance empty_session).
Proof.
  split; [exact clean_empty_session|]. split; [reflexivity|].
  destruct (absent_is_not_an_error Configuracao 7 (cfg "a" "1") empty_session
              clean_empty_session eq_refl) as [H _].
  exact (H eq_refl).
Defined.

Lemma delete_then_get_by_id_witness :
  clean one_row_session ∧ healthy 3 one_row_session
  ∧ lookup_id 1 (rows one_row_session) = Some row_a
  ∧ ∃ s', delete Configuracao 1 one_row_session = (Ok true, s')
          ∧ rows s' = []
          ∧ get_by_id Configuracao 1 s' = (Ok None, advance s').
Proof.
  assert (Hh : healthy 3 one_row_session) by (apply healthy_nil; reflexivity).
  assert (Hl : lookup_id 1 (rows one_row_session) = Some row_a) by compute_done.
  split; [exact clean_one_row_session|]. split; [exact Hh|]. split; [exact Hl|].
  destruct (delete_then_get_by_id Configuracao 1 row_a one_row_session
              clean_one_row_session Hh Hl) as (s' & Hd & Hr & _ & Hg).
  exists s'. split; [exact Hd|]. split; [|exact Hg].
  rewrite Hr. compute_done.
Defined.

Lemma upsert_without_unique_key_witness :
  clean one_row_session ∧ rows one_row_session = [row_a]
  ∧ (∀ f, f ∈ ["grupo"] → cfg "z" "7" !! f = None)
  ∧ ∃ e s',
      upsert Configuracao ["grupo"] (cfg "z" "7") one_row_session
      = (Ok (e, false), s')
      ∧ e !! "chave" = Some (Scalar (SStr "z")).
Proof.
  assert (Hr : rows one_row_session = [row_a]) by compute_done.
  assert (Hdis : ∀ f, f ∈ ["grupo"] → cfg "z" "7" !! f = None).
  { intros f Hf. apply list_elem_of_singleton in Hf as ->. compute_done. }
  split; [exact clean_one_row_session|]. split; [exact Hr|].
  split; [exact Hdis|].
  pose proof (upsert_without_unique_key Configuracao ["grupo"] (cfg "z" "7")
                one_row_session row_a [] clean_one_row_session Hr Hdis) as H.
  cbv zeta in H. destruct H as (_ & _ & _ & _ & Hok).
  match type of Hok with _ → ?c = Ok tt → _ =>
    assert (Hck : c = Ok tt) by compute_done end.
  destruct (Hok ltac:(apply healthy_nil; reflexivity) Hck) as [s' Hu].
  eexists _, s'. split; [exact Hu|].
  rewrite lookup_insert_ne by discriminate. rewrite set_fields_lookup.
  compute_done.
Defined.

(** The claim on [bulk_upsert] as the specification states it: with K the
    number of items that have a match before the call, created = N - K and
    updated = K.  Two items with the same key on an empty table: no item has
    a match before the call, and the second one updates what the first one
    created. *)
Lemma bulk_upsert_preexisting_counterexample :
  ¬ (∀ cls unique_fields items s es created updated,
       clean s →
       run (bulk_upsert cls unique_fields items) s = Ok (es, created, updated) →
       let K := preexisting cls unique_fields items s in
       let N := Z.of_nat (length items) in
       created = N - K ∧ updated = K).
Proof.
  intros H.
  destruct (succeeds_ok
              (bulk_upsert Configuracao ["chave"] [cfg "a" "1"; cfg "a" "2"])
              empty_session ltac:(compute_done)) as ([[es c] u] & s' & Hb).
  assert (Hrun : run (bulk_upsert Configuracao ["chave"]
                        [cfg "a" "1"; cfg "a" "2"]) empty_session
                 = Ok (es, c, u)).
  { unfold run. rewrite Hb. reflexivity. }
  destruct (H _ _ _ _ _ _ _ clean_empty_session Hrun) as [_ Hu].
  assert (HK : preexisting Configuracao ["chave"] [cfg "a" "1"; cfg "a" "2"]
                 empty_session = 0) by compute_done.
  rewrite HK in Hu.
  apply (f_equal (fun r => match r with
                           | Ok (_, _, n) => n
                           | Err _ => 0
                           end)) in Hrun.
  vm_compute in Hrun. subst u. discriminate Hu.
Qed.

(** The claim on [get_by_filters] as the specification states it: the given
    limit is applied.  With a limit of 0 on a table of one row the method
    returns the row. *)
Lemma get_by_filters_limit_counterexample :
  ¬ (∀ cls filters order_by limit offset descending s,
       clean s → next_fault s = false → known cls filters →
       negative limit = false → negative offset = false →
       (∀ f, order_by = Some f → f ≠ "" ∧ hasattr cls f = true) →
       run (get_by_filters cls filters order_by limit offset descending) s
       = Ok (bounds_as_given filters order_by limit offset descending (rows s))).
Proof.
  intros H.
  specialize (H Configuracao ∅ None (Some 0) None false one_row_session
                clean_one_row_session ltac:(compute_done) (known_empty _)
                eq_refl eq_refl ltac:(intros f [=])).
  apply (f_equal (fun r => match r with
                           | Ok l => length l
                           | Err _ => 0%nat
                           end)) in H.
  vm_compute in H. discriminate H.
Qed.

Example get_by_filters_limit_zero_run :
  run (get_by_filters Configuracao ∅ None (Some 0) None false) one_row_session
  = Ok [row_a].
Proof. compute_done. Qed.

Example bulk_upsert_duplicates_run :
  match run (bulk_upsert Configuracao ["chave"] [cfg "a" "1"; cfg "a" "2"])
            empty_session with
  | Ok (es, created, updated) => Some (length es, created, updated)
  | Err _ => None
  end = Some (2%nat, 1, 1).
Proof. compute_done. Qed.

(** * Further properties of the repository *)

(** ** The read methods *)

Section Reads.

Variable cls : model_class.

Lemma select_session_query table : select session_query table = table.
Proof.
  unfold select. cbn [session_query q_limit q_offset q_order q_where paginate ordered].
  apply (filter_all_true table (fun _ => true)). reflexivity.
Qed.

(** X1.  [get_all] is [get_by_filters] with an empty filter and no ordering
    or bound: on a clean session it returns the whole table, in the order of
    the table, when the store answers, and raises DatabaseError when the
    store fails; in both cases the table is left as it is. *)
Theorem get_all_whole_table s :
  clean s →
  get_all cls s = get_by_filters cls ∅ None None None false s
  ∧ get_all cls s =
      (if next_fault s then Err DatabaseError else Ok (rows s), advance s).
Proof.
  intros Hc.
  assert (He : get_all cls s = get_by_filters cls ∅ None None None false s).
  { unfold get_all, get_by_filters, try_except, bind, ret.
    rewrite bool_decide_eq_false_2 by (intros H; apply H; reflexivity).
    reflexivity. }
  split; [exact He|].
  unfold get_all, try_except. rewrite (query_all_eq cls _ s Hc).
  destruct (next_fault s); [reflexivity|].
  cbn [session_query q_limit q_offset negative orb].
  rewrite select_session_query. reflexivity.
Qed.

(** X2.  [count] is the length of what [get_by_filters] returns for the
    same filter without ordering or bound, and fails when it fails; no
    filter counts as the empty filter. *)
Theorem count_is_length_of_get_by_filters filters s :
  count cls (Some filters) s =
    match get_by_filters cls filters None None None false s with
    | (Ok l, s') => (Ok (Z.of_nat (length l)), s')
    | (Err x, s') => (Err x, s')
    end
  ∧ count cls None s = count cls (Some ∅) s.
Proof.
  split.
  - unfold count, get_by_filters, query_count, try_except. cbv zeta.
    set (build := if bool_decide (filters ≠ ∅)
                  then conditions <- conditions_of cls filters ;;
                       ret (q_filter conditions session_query)
                  else ret session_query).
    unfold bind, ret.
    destruct (build s) as [[q|x] s1]; [|reflexivity].
    destruct (query_all cls q s1) as [[l|x] s2]; reflexivity.
  - unfold count.
    rewrite bool_decide_eq_false_2 by (intros H; apply H; reflexivity).
    reflexivity.
Qed.

End Reads.

Section ReadOnly.

Variable cls : model_class.

Lemma same_table_refl s : clean s → same_table s s.
Proof. intros Hc. repeat split; apply Hc. Qed.

Lemma same_table_trans s1 s2 s3 :
  same_table s1 s2 → same_table s2 s3 → same_table s1 s3.
Proof.
  intros (Hr & Hc & _) (Hr' & Hc' & Hcl). repeat split; try apply Hcl; congruence.
Qed.

Lemma same_table_advance s : clean s → same_table s (advance s).
Proof. intros Hc. repeat split; apply Hc. Qed.

Lemma ro_ret {A} (a : A) : read_only (ret a).
Proof. intros s Hc. apply same_table_refl. exact Hc. Qed.

Lemma ro_raise {A} x : read_only (@raise A x).
Proof. intros s Hc. apply same_table_refl. exact Hc. Qed.

Lemma ro_bind {A B} (m : M A) (k : A → M B) :
  read_only m → (∀ a, read_only (k a)) → read_only (bind m k).
Proof.
  intros Hm Hk s Hc. specialize (Hm s Hc). unfold exec, bind in *.
  destruct (m s) as [[a|x] s1]; simpl in *; [|exact Hm].
  eapply same_table_trans; [exact Hm|]. apply Hk. apply Hm.
Qed.

Lemma ro_try {A} (m : M A) (h : exn → M A) :
  read_only m → (∀ x, read_only (h x)) → read_only (try_except m h).
Proof.
  intros Hm Hh s Hc. specialize (Hm s Hc). unfold exec, try_except in *.
  destruct (m s) as [[a|x] s1]; simpl in *; [exact Hm|].
  eapply same_table_trans; [exact Hm|]. apply Hh. apply Hm.
Qed.

Lemma ro_column key : read_only (column cls key).
Proof. unfold column. destruct (hasattr cls key); [apply ro_ret|apply ro_raise]. Qed.

Lemma ro_for_each {A B} (body : A → M B) xs :
  (∀ x, read_only (body x)) → read_only (for_each body xs).
Proof.
  intros Hb. induction xs as [|x xs IH]; simpl; [apply ro_ret|].
  apply ro_bind; [apply Hb|]. intros y.
  apply ro_bind; [apply IH|]. intros ys. apply ro_ret.
Qed.

Lemma ro_conditions_of filters : read_only (conditions_of cls filters).
Proof.
  unfold conditions_of. apply ro_for_each. intros kv.
  apply ro_bind; [apply ro_column|]. intros col. apply ro_ret.
Qed.

Lemma ro_query_all q : read_only (query_all cls q).
Proof.
  intros s Hc. unfold exec. rewrite (query_all_eq cls q s Hc).
  apply same_table_advance. exact Hc.
Qed.

Lemma ro_get_by_id entity_id : read_only (get_by_id cls entity_id).
Proof.
  unfold get_by_id, query_first.
  apply ro_try; [|intros x; apply ro_raise].
  apply ro_bind; [apply ro_query_all|]. intros l. apply ro_ret.
Qed.

Lemma ro_get_all : read_only (get_all cls).
Proof.
  unfold get_all. apply ro_try; [apply ro_query_all|intros x; apply ro_raise].
Qed.

Lemma ro_get_by_filters filters order_by limit offset descending :
  read_only (get_by_filters cls filters order_by limit offset descending).
Proof.
  unfold get_by_filters.
  apply ro_try; [|intros x; apply ro_raise]. cbv zeta.
  apply ro_bind.
  { case_bool_decide; [|apply ro_ret].
    apply ro_bind; [apply ro_conditions_of|]. intros c. apply ro_ret. }
  intros q1. apply ro_bind.
  { destruct order_by as [f|]; [|apply ro_ret].
    case_bool_decide; [|apply ro_ret].
    apply ro_bind; [apply ro_column|]. intros c. apply ro_ret. }
  intros q2. apply ro_query_all.
Qed.

Lemma ro_count filters : read_only (count cls filters).
Proof.
  unfold count, query_count.
  apply ro_try; [|intros x; apply ro_raise]. cbv zeta.
  apply ro_bind.
  { destruct filters as [f|]; [|apply ro_ret].
    case_bool_decide; [|apply ro_ret].
    apply ro_bind; [apply ro_conditions_of|]. intros c. apply ro_ret. }
  intros q. apply ro_bind; [apply ro_query_all|]. intros l. apply ro_ret.
Qed.

(** X3.  The read methods never change the table of a clean session and
    never roll back: whether [get_by_id], [get_all], [get_by_filters] or
    [count] returns or raises, the rows of the transaction, the durable rows
    and the empty unit of work are what they were. *)
Theorem reads_leave_the_table :
  (∀ entity_id, read_only (get_by_id cls entity_id))
  ∧ read_only (get_all cls)
  ∧ (∀ filters order_by limit offset descending,
       read_only (get_by_filters cls filters order_by limit offset descending))
  ∧ (∀ filters, read_only (count cls filters)).
Proof.
  split; [exact ro_get_by_id|]. split; [exact ro_get_all|].
  split; [exact ro_get_by_filters|exact ro_count].
Qed.

(** A filter with a key that is not an attribute: the loop over the filter
    raises AttributeError, and the session is untouched. *)
Lemma conditions_of_unknown filters k v s :
  filters !! k = Some v → hasattr cls k = false →
  conditions_of cls filters s = (Err AttributeError, s).
Proof.
  intros Hk Hat. unfold conditions_of.
  apply elem_of_map_to_list in Hk.
  induction (map_to_list filters) as [|kv l IH]; [inversion Hk|].
  cbn [for_each]. unfold bind at 1 2. unfold column at 1.
  destruct (hasattr cls kv.1) eqn:Hkv.
  - unfold ret at 1 2. unfold bind at 1.
    apply elem_of_cons in Hk as [<-|Hk]; [simpl in Hkv; congruence|].
    rewrite (IH Hk). reflexivity.
  - reflexivity.
Qed.

Lemma filters_nonempty (filters : dict) k v :
  filters !! k = Some v → filters ≠ ∅.
Proof. intros Hk ->. rewrite lookup_empty in Hk. discriminate. Qed.

(** X4.  A filter with a key that is not an attribute of the class:
    [get_by_filters] and [count] raise DatabaseError before anything is
    sent to the store, leaving the session as it is, and [delete_many]
    raises DatabaseError on the rolled-back session, with nothing sent. *)
Theorem unknown_filter_key filters k v order_by limit offset descending s :
  filters !! k = Some v → hasattr cls k = false →
  get_by_filters cls filters order_by limit offset descending s
  = (Err DatabaseError, s)
  ∧ count cls (Some filters) s = (Err DatabaseError, s)
  ∧ delete_many cls filters s = (Err DatabaseError, exec session_rollback s).
Proof.
  intros Hk Hat.
  pose proof (conditions_of_unknown _ _ _ s Hk Hat) as Hc.
  pose proof (filters_nonempty _ _ _ Hk) as Hne.
  split; [|split].
  - unfold get_by_filters, try_except. cbv zeta. unfold bind at 1.
    rewrite bool_decide_eq_true_2 by exact Hne.
    unfold bind at 1. rewrite Hc. reflexivity.
  - unfold count, try_except. cbv zeta. unfold bind at 1.
    rewrite bool_decide_eq_true_2 by exact Hne.
    unfold bind at 1. rewrite Hc. reflexivity.
  - unfold delete_many, try_except. unfold bind at 1. rewrite Hc. reflexivity.
Qed.

End ReadOnly.

(** ** Keys that are not attributes, and the empty filter *)

Section UnknownKeys.

Variable cls : model_class.

Lemma construct_unknown data k v s :
  data !! k = Some v → hasattr cls k = false →
  construct cls data s = (Err TypeError, s).
Proof.
  intros Hk Hat. unfold construct.
  destruct (forallb _ _) eqn:Hf; [|reflexivity].
  rewrite forallb_forall in Hf. specialize (Hf (k, v)).
  rewrite <- list_elem_of_In, elem_of_map_to_list in Hf.
  specialize (Hf Hk). simpl in Hf. congruence.
Qed.

Lemma construct_all_unknown items data k v :
  data ∈ items → data !! k = Some v → hasattr cls k = false →
  ∀ s, ∃ s1,
    for_each (fun item => entity <- construct cls item ;;
                          session_add entity ;; ret entity) items s
    = (Err TypeError, s1)
    ∧ clock s1 = clock s ∧ faults s1 = faults s.
Proof.
  intros Hin Hk Hat. induction items as [|item items IH]; [inversion Hin|].
  intros s. cbn [for_each]. unfold bind at 1 2.
  unfold construct at 1.
  destruct (forallb (fun kv => hasattr cls kv.1) (map_to_list item)) eqn:Hf.
  - unfold ret at 1. unfold session_add at 1. unfold bind at 1. unfold ret at 1.
    unfold bind at 1.
    assert (Hin' : data ∈ items).
    { apply elem_of_cons in Hin as [->|Hin]; [|exact Hin].
      exfalso. rewrite forallb_forall in Hf. specialize (Hf (k, v)).
      rewrite <- list_elem_of_In, elem_of_map_to_list in Hf.
      specialize (Hf Hk). simpl in Hf. congruence. }
    match goal with |- context [for_each ?f items ?st] =>
      destruct (IH Hin' st) as (s1 & Hl & Hcl & Hfa) end.
    rewrite Hl. exists s1. split; [reflexivity|]. split; assumption.
  - exists s. repeat split.
Qed.

(** X5.  A key of [data] that is not an attribute of the class makes
    [create] raise DatabaseError on the rolled-back session, and an item
    with such a key makes [bulk_create] do the same for the whole batch; in
    both cases nothing was sent to the store. *)
Theorem create_unknown_key data k v items s :
  data !! k = Some v → hasattr cls k = false →
  create cls (inl data) s = (Err DatabaseError, exec session_rollback s)
  ∧ (data ∈ items →
     ∃ s', bulk_create cls items s = (Err DatabaseError, s')
           ∧ rolled_back s s'
           ∧ clock s' = clock s ∧ faults s' = faults s).
Proof.
  intros Hk Hat. split.
  - unfold create, try_except. unfold bind at 1.
    rewrite (construct_unknown _ _ _ s Hk Hat). reflexivity.
  - intros Hin.
    destruct (construct_all_unknown _ _ _ _ Hin Hk Hat s) as (s1 & Hl & Hcl & Hfa).
    destruct (bulk_create cls items s) as [[es|x] s'] eqn:Hb.
    + exfalso. revert Hb. unfold bulk_create, try_except. unfold bind at 1.
      rewrite Hl. discriminate.
    + destruct (bulk_create_fails cls _ _ _ _ Hb) as [-> Hrb].
      exists s'. split; [reflexivity|]. split; [exact Hrb|].
      revert Hb. unfold bulk_create, try_except. unfold bind at 1. rewrite Hl.
      unfold rollback_and_raise, bind, session_rollback, raise.
      intros [= <-]. simpl. split; assumption.
Qed.

Lemma set_fields_unknown data old :
  (∀ k v, data !! k = Some v → hasattr cls k = false) →
  set_fields cls data old = old.
Proof.
  intros H. apply map_eq. intros k. rewrite set_fields_lookup.
  unfold field_after. destruct (hasattr cls k) eqn:Hat; [|reflexivity].
  destruct (data !! k) as [v|] eqn:Hk; [|reflexivity].
  rewrite (H k v Hk) in Hat. discriminate.
Qed.

(** X6.  [update] drops the keys of [data] that are not attributes of the
    class without a word: when no key of [data] is an attribute, the call is
    the call with an empty change set. *)
Theorem update_ignores_unknown_keys entity_id data s :
  (∀ k v, data !! k = Some v → hasattr cls k = false) →
  update cls entity_id data s = update cls entity_id ∅ s.
Proof.
  intros H. unfold update, try_except, bind.
  destruct (get_by_id cls entity_id s) as [[[old|]|x] s1]; try reflexivity.
  cbv zeta. rewrite (set_fields_unknown _ _ H), set_fields_empty. reflexivity.
Qed.

(** X7.  [delete_many] has no guard for an empty filter: on a clean session
    whose store answers, the empty filter removes every row and the count
    returned is the length of the table. *)
Theorem delete_many_empty_filter s :
  clean s → healthy 2 s →
  ∃ s', delete_many cls ∅ s = (Ok (Z.of_nat (length (rows s))), s')
        ∧ rows s' = [] ∧ committed s' = committed s.
Proof.
  intros Hc Hh.
  pose proof (healthy_next _ _ Hh) as Hf0.
  pose proof (healthy_next _ _ (healthy_advance _ _ Hh)) as Hf1.
  rewrite (delete_many_eq cls ∅ s Hc Hf0 Hf1 (known_empty cls)).
  rewrite (filter_all_true (rows s) (matchesb ∅)) by apply matchesb_empty.
  eexists. split; [reflexivity|]. cbn [set_rows rows committed advance].
  split; [|reflexivity].
  induction (rows s) as [|r t IH]; [reflexivity|].
  rewrite filter_cons_False; [exact IH|].
  rewrite matchesb_empty. intros Hn. apply Hn. reflexivity.
Qed.

End UnknownKeys.

(** ** Calls in sequence *)

Section Sequences.

Variable cls : model_class.

(** What a successful [upsert] that reports created = true did. *)
Lemma upsert_created_inv unique_fields data s e s1 :
  clean s →
  upsert cls unique_fields data s = (Ok (e, true), s1) →
  filter (fun r => matchesb (unique_filters unique_fields data) r = true) (rows s) = []
  ∧ known cls (unique_filters unique_fields data)
  ∧ create cls (inl data) (advance s) = (Ok e, s1).
Proof.
  intros Hc Hu.
  destruct (get_by_filters cls (unique_filters unique_fields data)
              None None None false s) as [[l|x] s0] eqn:Hg.
  - destruct (get_by_filters_ok_inv _ _ _ _ _ Hc Hg) as (Hl & -> & Hf0 & Hk).
    destruct l as [|first rest].
    + rewrite (upsert_missing_eq _ _ _ _ _ Hg) in Hu.
      destruct (create cls (inl data) (advance s)) as [[e0|x] s2] eqn:Hcr;
        [|discriminate].
      injection Hu as <- <-. repeat split; [symmetry; exact Hl|exact Hk].
    + exfalso.
      assert (Hin : first ∈ rows s).
      { assert (H : first ∈ first :: rest) by left.
        rewrite Hl in H. apply list_elem_of_filter in H as [_ H]. exact H. }
      destruct (upsert_found_spec _ _ _ _ _ _ Hc Hin Hg) as [Hm _].
      rewrite Hu in Hm. destruct Hm as [Hm _]. discriminate.
  - exfalso. revert Hu. unfold upsert, try_except. unfold bind at 1.
    rewrite Hg. discriminate.
Qed.

(** X8.  [upsert] twice on the same unique-key values, these values being
    scalars other than [None]: after a first call that created the entity,
    the lookup of the second call returns that entity alone, and the second
    call never creates: it returns the entity with the fields of the second
    [data] and created = false, or raises DatabaseError. *)
Theorem upsert_twice unique_fields data1 data2 s e1 s1 :
  clean s →
  (∀ f v, f ∈ unique_fields → data1 !! f = Some v →
          ∃ x, v = Scalar x ∧ x ≠ SNull) →
  unique_filters unique_fields data2 = unique_filters unique_fields data1 →
  upsert cls unique_fields data1 s = (Ok (e1, true), s1) →
  let e2 := <["updated_at" := Scalar (STime (clock s1 + 1))]>
              (set_fields cls data2 e1) in
  (next_fault s1 = false →
   get_by_filters cls (unique_filters unique_fields data2)
                  None None None false s1 = (Ok [e1], advance s1))
  ∧ match upsert cls unique_fields data2 s1 with
    | (Ok (e, created), s2) =>
        created = false ∧ e = e2
        ∧ rows s2 = replace_row (pk e1) e2 (rows s1)
    | (Err x, s2) => x = DatabaseError ∧ rolled_back s1 s2
    end
  ∧ (healthy 3 s1 →
     check_row cls (filter (fun r => pk r ≠ pk e1) (rows s1)) e2 = Ok tt →
     ∃ s2, upsert cls unique_fields data2 s1 = (Ok (e2, false), s2)).
Proof.
  intros Hc Hscalar Hsame Hu e2.
  destruct (upsert_created_inv _ _ _ _ _ Hc Hu) as (Hnone & Hk & Hcr).
  destruct (create_ok _ _ _ _ _ (clean_advance _ Hc) Hcr)
    as (Hrows & [n Hrow] & _ & _ & _ & _ & Hattrs & _ & Hc1).
  cbn [advance rows clock] in Hrows, Hrow.
  assert (Hm : matchesb (unique_filters unique_fields data1) e1 = true).
  { apply matchesb_iff. intros key v Hf.
    rewrite unique_filters_lookup in Hf.
    case_bool_decide as Hin; [|discriminate].
    destruct (Hscalar key v Hin Hf) as (x & -> & Hx).
    assert (He : e1 !! key = Some (Scalar x)).
    { rewrite Hrow. apply insert_row_supplied; [exact Hf|congruence|].
      exact (Hattrs data1 eq_refl key _ Hf). }
    unfold getattr. rewrite He. reflexivity. }
  assert (Hget : next_fault s1 = false →
            get_by_filters cls (unique_filters unique_fields data2)
                           None None None false s1 = (Ok [e1], advance s1)).
  { intros Hf. rewrite Hsame, get_by_filters_eq; try assumption;
      try reflexivity; [|intros f [=]].
    cbn [effective effective_order paginate ordered].
    rewrite Hrows, filter_app, Hnone.
    rewrite filter_cons_True by exact Hm. reflexivity. }
  split; [exact Hget|].
  assert (Hin : e1 ∈ rows s1).
  { rewrite Hrows. apply elem_of_app. right. left. }
  destruct (next_fault s1) eqn:Hf.
  - split.
    + destruct (upsert cls unique_fields data2 s1) as [[[e c]|x] s2] eqn:Hu2.
      * exfalso. revert Hu2. unfold upsert, try_except. unfold bind at 1.
        destruct (get_by_filters cls (unique_filters unique_fields data2)
                    None None None false s1) as [[l|x] s0] eqn:Hg.
        -- destruct (get_by_filters_ok_inv _ _ _ _ _ Hc1 Hg) as (_ & _ & Hf' & _).
           congruence.
        -- discriminate.
      * exact (upsert_fails cls _ _ _ _ _ Hu2).
    + intros Hh. rewrite (healthy_next _ _ Hh) in Hf. discriminate.
  - specialize (Hget eq_refl).
    destruct (upsert_found_spec _ _ _ _ _ _ Hc1 Hin Hget) as [Hres Hok].
    fold e2 in Hres, Hok. split.
    + destruct (upsert cls unique_fields data2 s1) as [[[e c]|x] s2];
        [|exact Hres].
      destruct Hres as (-> & -> & Hr & _). repeat split; assumption.
    + intros Hh. apply Hok. apply healthy_advance. exact Hh.
Qed.

(** What a successful [update] that returns an entity did. *)
Lemma update_ok_inv entity_id data s e s' :
  clean s →
  update cls entity_id data s = (Ok (Some e), s') →
  ∃ old,
    lookup_id entity_id (rows s) = Some old
    ∧ e = <["updated_at" := Scalar (STime (clock s + 1))]>
            (set_fields cls data old)
    ∧ rows s' = replace_row (pk old) e (rows s)
    ∧ committed s' = committed s
    ∧ clean s'.
Proof.
  intros Hc. unfold update, try_except. unfold bind at 1.
  rewrite (get_by_id_eq cls _ _ Hc).
  destruct (next_fault s); [discriminate|].
  destruct (lookup_id entity_id (rows s)) as [old|] eqn:Hl; [|discriminate].
  destruct (lookup_id_some _ _ _ Hl) as [Hin Hpk].
  unfold bind at 1. unfold utcnow at 1. cbn [advance clock].
  set (e0 := <["updated_at" := Scalar (STime (clock s + 1))]>
               (set_fields cls data old)).
  rewrite (write_back_eq cls Some old e0 (advance s) (clean_advance _ Hc) Hin).
  destruct (next_fault (advance s)); [discriminate|].
  cbn [advance rows].
  destruct (check_row cls _ e0) as [[]|x]; [|discriminate].
  cbv zeta. destruct (next_fault _); [discriminate|].
  intros [= <- <-]. exists old. destruct Hc as [Hp Hd].
  repeat split; assumption.
Qed.

Lemma lookup_id_replace_row entity_id old e table :
  lookup_id entity_id table = Some old →
  pk e = Scalar (SInt entity_id) →
  lookup_id entity_id (replace_row (Scalar (SInt entity_id)) e table) = Some e.
Proof.
  unfold lookup_id, replace_row. intros Hl He.
  induction table as [|r t IH]; [discriminate|].
  simpl in Hl |- *. destruct (decide (pk r = Scalar (SInt entity_id))) as [Hr|Hr].
  - rewrite bool_decide_eq_true_2 by exact He. reflexivity.
  - rewrite bool_decide_eq_false_2 in Hl |- * by exact Hr. apply IH. exact Hl.
Qed.

(** X9.  After a successful [update] whose change set has no ["id"], a
    [get_by_id] with the same identifier, when the store answers, returns
    the entity that [update] returned. *)
Theorem update_then_get_by_id entity_id data s e s' :
  clean s →
  update cls entity_id data s = (Ok (Some e), s') →
  data !! "id" = None →
  next_fault s' = false →
  get_by_id cls entity_id s' = (Ok (Some e), advance s').
Proof.
  intros Hc Hu Hid Hf.
  destruct (update_ok_inv _ _ _ _ _ Hc Hu) as (old & Hl & He & Hr & _ & Hcl).
  destruct (lookup_id_some _ _ _ Hl) as [_ Hpk].
  assert (Hpe : pk e = Scalar (SInt entity_id)).
  { rewrite <- Hpk. unfold pk, getattr. f_equal.
    rewrite He, lookup_insert_ne by discriminate.
    rewrite set_fields_lookup. unfold field_after. rewrite Hid.
    destruct (hasattr cls "id"); reflexivity. }
  rewrite (get_by_id_eq cls _ _ Hcl), Hf, Hr, Hpk.
  rewrite (lookup_id_replace_row _ _ _ _ Hl Hpe). reflexivity.
Qed.

(** What a successful [delete] that returns true did. *)
Lemma delete_ok_inv entity_id s s' :
  clean s →
  delete cls entity_id s = (Ok true, s') →
  rows s' = filter (fun r => pk r ≠ Scalar (SInt entity_id)) (rows s)
  ∧ committed s' = committed s ∧ clean s'.
Proof.
  intros Hc Hd.
  destruct (next_fault s) eqn:Hf0.
  { exfalso. revert Hd. unfold delete, try_except. unfold bind at 1.
    rewrite (get_by_id_eq cls _ _ Hc), Hf0. discriminate. }
  destruct (lookup_id entity_id (rows s)) as [old|] eqn:Hl.
  2:{ rewrite (delete_absent_eq cls _ _ Hc Hl), Hf0 in Hd. discriminate. }
  destruct (next_fault (advance s)) eqn:Hf1.
  { exfalso. revert Hd. destruct Hc as [Hp Hdl].
    unfold delete, try_except. unfold bind at 1.
    rewrite (get_by_id_eq cls _ _ (conj Hp Hdl)), Hl, Hf0.
    unfold bind at 1. unfold session_delete at 1.
    unfold bind at 1. unfold session_flush.
    cbn [advance rows pending clock next_id deleted committed faults].
    rewrite Hp, Hdl. cbn [app]. rewrite execute_eq.
    unfold next_fault in Hf1 |- *. cbn [advance faults] in Hf1 |- *.
    rewrite Hf1. discriminate. }
  rewrite (delete_present_eq cls _ _ _ Hc Hl Hf0 Hf1) in Hd.
  injection Hd as <-. cbn [set_rows rows committed advance].
  destruct Hc. repeat split; assumption.
Qed.

Lemma lookup_id_filter_other entity_id other table :
  other ≠ entity_id →
  lookup_id other (filter (fun r => pk r ≠ Scalar (SInt entity_id)) table)
  = lookup_id other table.
Proof.
  intros Hne. unfold lookup_id. induction table as [|r t IH]; [reflexivity|].
  destruct (decide (pk r = Scalar (SInt entity_id))) as [Hr|Hr].
  - rewrite filter_cons_False by (intros H; apply H; exact Hr).
    simpl. rewrite bool_decide_eq_false_2; [exact IH|].
    rewrite Hr. intros [= H]. apply Hne. symmetry. exact H.
  - rewrite filter_cons_True by exact Hr. simpl.
    destruct (bool_decide (pk r = Scalar (SInt other))); [reflexivity|exact IH].
Qed.

(** X10.  A successful [delete] touches no other identifier: a [get_by_id]
    with another identifier finds after the call what it found before. *)
Theorem delete_leaves_other_ids entity_id other s s' :
  clean s →
  delete cls entity_id s = (Ok true, s') →
  other ≠ entity_id →
  lookup_id other (rows s') = lookup_id other (rows s)
  ∧ (next_fault s' = false →
     get_by_id cls other s' = (Ok (lookup_id other (rows s)), advance s')).
Proof.
  intros Hc Hd Hne.
  destruct (delete_ok_inv _ _ _ Hc Hd) as (Hr & _ & Hcl).
  assert (Hl : lookup_id other (rows s') = lookup_id other (rows s)).
  { rewrite Hr. apply lookup_id_filter_other. exact Hne. }
  split; [exact Hl|]. intros Hf.
  rewrite (get_by_id_eq cls _ _ Hcl), Hf, Hl. reflexivity.
Qed.

End Sequences.

(** ** Commit, rollback and fresh identifiers *)

Section Transactions.

Variable cls : model_class.

(** [commit] on a clean session: one statement, the COMMIT. *)
Lemma commit_eq s :
  clean s →
  commit cls s =
    if next_fault s
    then (Err DatabaseError, exec session_rollback (advance s))
    else (Ok tt,
          {| rows := rows s; committed := rows s; pending := pending s;
             deleted := deleted s; next_id := next_id s;
             clock := clock s + 1; faults := tail (faults s) |}).
Proof.
  intros Hc. unfold commit, try_except, session_commit. unfold bind at 1.
  rewrite (session_flush_clean cls s Hc). unfold bind at 1.
  rewrite execute_eq. destruct (next_fault s); reflexivity.
Qed.

(** X11.  What is committed stays: after a successful [commit] on a clean
    session the durable table is the table of the transaction, a
    [rollback] leaves the table as it is, and so does the failure of any
    later call that rolls back when it fails. *)
Theorem commit_is_durable s s1 :
  clean s →
  commit cls s = (Ok tt, s1) →
  rows s1 = rows s ∧ committed s1 = rows s ∧ clean s1
  ∧ rollback s1 = (Ok tt, exec rollback s1)
  ∧ rows (exec rollback s1) = rows s
  ∧ (∀ A (m : M A) x s2,
       fails_rolled_back m → m s1 = (Err x, s2) →
       rows s2 = rows s ∧ committed s2 = rows s).
Proof.
  intros Hc. rewrite (commit_eq s Hc).
  destruct (next_fault s); [discriminate|]. intros [= <-].
  cbn [rows committed]. destruct Hc as [Hp Hd].
  split; [reflexivity|]. split; [reflexivity|].
  split; [split; assumption|]. split; [reflexivity|]. split; [reflexivity|].
  intros A m x s2 Hm Hfail.
  destruct (Hm _ _ _ Hfail) as (_ & Hr & Hcm & _).
  cbn [committed] in Hr, Hcm. split; assumption.
Qed.





End Transactions.

(** ** What [get_by_filters] returns *)

Section Pages.

Variable cls : model_class.

Lemma paginate_subseteq limit offset (l : list entity) :
  paginate limit offset l ⊆ l.
Proof.
  unfold paginate. destruct offset as [o|], limit as [n|]; try reflexivity.
  - etransitivity; [apply subseteq_take|apply subseteq_drop].
  - apply subseteq_drop.
  - apply subseteq_take.
Qed.

Lemma paginate_length limit offset (l : list entity) :
  (length (paginate limit offset l) ≤ length l)%nat.
Proof.
  unfold paginate. destruct offset as [o|], limit as [n|];
    rewrite ?length_take, ?length_drop; lia.
Qed.

Lemma ordered_perm order (l : list entity) : ordered order l ≡ₚ l.
Proof.
  unfold ordered. destruct order as [[col d]|]; [|reflexivity].
  apply merge_sort_Permutation.
Qed.

(** X14.  On a clean session whose store answers, for a filter and an
    ordering on attributes and no negative bound, every entity that
    [get_by_filters] returns is a row of the table on which the filter
    holds, there are no more of them than rows in the table, and no more
    than the limit when the limit is not 0. *)
Theorem get_by_filters_result_bounds filters order_by limit offset descending s :
  clean s → next_fault s = false → known cls filters →
  (∀ f, order_by = Some f → f ≠ "" → hasattr cls f = true) →
  negative limit = false → negative offset = false →
  ∃ l,
    get_by_filters cls filters order_by limit offset descending s
    = (Ok l, advance s)
    ∧ (∀ r, r ∈ l → r ∈ rows s ∧ matches filters r)
    ∧ (length l ≤ length (rows s))%nat
    ∧ (∀ n, limit = Some n → n ≠ 0 → (length l ≤ Z.to_nat n)%nat).
Proof.
  intros Hc Hf Hk Ho Hl Hof.
  rewrite (get_by_filters_eq cls filters order_by limit offset descending s
             Hc Hf Hk Ho Hl Hof).
  eexists. split; [reflexivity|]. split; [|split].
  - intros r Hr. apply paginate_subseteq in Hr.
    rewrite ordered_perm in Hr. apply list_elem_of_filter in Hr as [Hm Hin].
    split; [exact Hin|]. apply matchesb_iff. exact Hm.
  - etransitivity; [apply paginate_length|].
    rewrite ordered_perm. apply length_filter.
  - intros n -> Hn. unfold effective at 1.
    rewrite bool_decide_eq_true_2 by exact Hn.
    unfold paginate. rewrite length_take. lia.
Qed.


End Pages.

(** ** [BaseModel.to_dict] and [BaseModel.from_dict] *)

Section BaseModel.

Variable cls : model_class.

Lemma to_dict_lookup e k :
  to_dict cls e !! k
  = if bool_decide (k ∈ attrs cls) then Some (getattr e k) else None.
Proof.
  unfold to_dict. induction (attrs cls) as [|c l IH]; cbn [foldr].
  - rewrite lookup_empty. rewrite bool_decide_eq_false_2; [reflexivity|].
    apply not_elem_of_nil.
  - destruct (decide (c = k)) as [->|Hne].
    + rewrite lookup_insert_eq, bool_decide_eq_true_2; [reflexivity|left].
    + rewrite lookup_insert_ne by assumption. rewrite IH.
      destruct (bool_decide (k ∈ l)) eqn:E.
      * apply bool_decide_eq_true in E.
        rewrite bool_decide_eq_true_2; [reflexivity|right; exact E].
      * apply bool_decide_eq_false in E.
        rewrite bool_decide_eq_false_2; [reflexivity|].
        rewrite elem_of_cons. intros [Hk|Hk]; [congruence|contradiction].
Qed.

Lemma from_dict_eq data s :
  from_dict cls data s
  = (Ok (filter (fun kv : string * value => kv.1 ∈ attrs cls) data), s).
Proof.
  unfold from_dict, construct.
  destruct (forallb _ _) eqn:Hf; [reflexivity|]. exfalso.
  apply not_true_iff_false in Hf. apply Hf.
  apply forallb_forall. intros [k v] Hin.
  rewrite <- list_elem_of_In, elem_of_map_to_list in Hin.
  apply map_lookup_filter_Some in Hin as [_ Hk].
  apply bool_decide_eq_true. exact Hk.
Qed.

(** X16.  [from_dict] never refuses a dictionary: the keys that are not
    columns are dropped and the others are set as given.  [to_dict] has
    exactly the columns as keys, and building an object from the dictionary
    of an object gives an object with the same dictionary. *)
Theorem to_dict_from_dict data e s :
  (∃ o, from_dict cls data s = (Ok o, s)
        ∧ ∀ k, o !! k = if bool_decide (k ∈ attrs cls) then data !! k else None)
  ∧ (∀ k, is_Some (to_dict cls e !! k) ↔ k ∈ attrs cls)
  ∧ (∃ o, from_dict cls (to_dict cls e) s = (Ok o, s)
          ∧ to_dict cls o = to_dict cls e).
Proof.
  split; [|split].
  - rewrite from_dict_eq. eexists. split; [reflexivity|]. intros k.
    rewrite map_lookup_filter. destruct (data !! k) as [v|]; simpl.
    + case_bool_decide as Hk.
      * rewrite option_guard_True by exact Hk. reflexivity.
      * rewrite option_guard_False by exact Hk. reflexivity.
    + case_bool_decide; reflexivity.
  - intros k. rewrite to_dict_lookup. case_bool_decide as Hk.
    + split; [intros _; exact Hk|intros _; eexists; reflexivity].
    + split; [intros [x Hx]; discriminate|intros H; contradiction].
  - rewrite from_dict_eq. eexists. split; [reflexivity|].
    apply map_eq. intros k. rewrite !to_dict_lookup.
    case_bool_decide as Hk; [|reflexivity]. f_equal.
    unfold getattr at 1. rewrite map_lookup_filter, to_dict_lookup.
    rewrite bool_decide_eq_true_2 by exact Hk. simpl.
    rewrite option_guard_True by exact Hk. reflexivity.
Qed.

End BaseModel.

(** ** The unit of work between two calls *)

Section KeepsClean.

Variable cls : model_class.

Lemma keeps_clean_read {A} (m : M A) : read_only m → keeps_clean m.
Proof. intros H s Hc. apply (H s Hc). Qed.

Lemma keeps_clean_write {A} (m : M A) :
  fails_rolled_back m →
  (∀ s a s', clean s → m s = (Ok a, s') → clean s') →
  keeps_clean m.
Proof.
  intros Hfail Hok s Hc. unfold exec.
  destruct (m s) as [[a|x] s'] eqn:Hm; simpl.
  - eapply Hok; eassumption.
  - apply (Hfail _ _ _ Hm).
Qed.

Lemma update_ok_clean entity_id data s r s' :
  clean s → update cls entity_id data s = (Ok r, s') → clean s'.
Proof.
  intros Hc. destruct r as [e|].
  - intros Hu. destruct (update_ok_inv _ _ _ _ _ _ Hc Hu) as (_ & _ & _ & _ & _ & H).
    exact H.
  - unfold update, try_except. unfold bind at 1.
    rewrite (get_by_id_eq cls _ _ Hc).
    destruct (next_fault s); [discriminate|].
    destruct (lookup_id entity_id (rows s)) as [old|] eqn:Hl.
    + destruct (lookup_id_some _ _ _ Hl) as [Hin Hpk].
      unfold bind at 1. unfold utcnow at 1.
      rewrite (write_back_eq cls Some old _ (advance s) (clean_advance _ Hc) Hin).
      destruct (next_fault (advance s)); [discriminate|].
      destruct (check_row cls _ _) as [[]|x]; [|discriminate].
      cbv zeta. destruct (next_fault _); discriminate.
    + intros [= <-]. apply clean_advance. exact Hc.
Qed.

Lemma delete_ok_clean entity_id s b s' :
  clean s → delete cls entity_id s = (Ok b, s') → clean s'.
Proof.
  intros Hc. destruct b.
  - intros Hd. apply (delete_ok_inv _ _ _ _ Hc Hd).
  - destruct (lookup_id entity_id (rows s)) as [old|] eqn:Hl.
    + destruct Hc as [Hp Hdl].
      unfold delete, try_except. unfold bind at 1.
      rewrite (get_by_id_eq cls _ _ (conj Hp Hdl)), Hl.
      destruct (next_fault s); [discriminate|].
      unfold bind at 1. unfold session_delete at 1.
      unfold bind at 1.
      match goal with |- context [session_flush cls [] ?st] =>
        destruct (session_flush cls [] st) as [[w|x] s1] end; discriminate.
    + rewrite (delete_absent_eq cls _ _ Hc Hl).
      destruct (next_fault s); [discriminate|].
      intros [= <-]. apply clean_advance. exact Hc.
Qed.

Lemma delete_many_ok_clean filters s n s' :
  clean s → delete_many cls filters s = (Ok n, s') → clean s'.
Proof.
  intros Hc. unfold delete_many, try_except. unfold bind at 1.
  destruct (conditions_of cls filters s) as [[c|x] s0] eqn:Hco; [|discriminate].
  assert (Hs0 : s0 = s).
  { pose proof (conditions_of_ok cls filters s
                  (conditions_of_inv _ _ _ _ _ Hco)) as H.
    rewrite Hco in H. injection H as _ <-. reflexivity. }
  subst s0. unfold bind at 1. unfold query_count. unfold bind at 1.
  rewrite (query_all_eq cls _ s Hc).
  destruct (next_fault s); [discriminate|].
  destruct (_ || _); [discriminate|].
  unfold ret at 1. unfold bind at 1. unfold query_delete. unfold bind at 1.
  rewrite (session_flush_clean cls _ (clean_advance _ Hc)).
  unfold bind at 1. rewrite execute_eq.
  destruct (next_fault (advance s)); [discriminate|].
  unfold bind at 1. rewrite session_flush_clean.
  2:{ destruct Hc; split; assumption. }
  unfold ret. intros [= _ <-]. destruct Hc; split; assumption.
Qed.

Lemma upserts_ok_clean unique_fields items : ∀ s rs s',
  clean s →
  for_each (upsert cls unique_fields) items s = (Ok rs, s') → clean s'.
Proof.
  induction items as [|item items IH]; intros s rs s' Hc; cbn [for_each].
  - intros [= _ <-]. exact Hc.
  - unfold bind, ret.
    destruct (upsert cls unique_fields item s) as [[[e c]|x] s1] eqn:Hu;
      [|discriminate].
    destruct (for_each (upsert cls unique_fields) items s1) as [[r1|x] s2] eqn:Hl;
      [|discriminate].
    intros [= _ <-].
    eapply IH; [|exact Hl]. apply (upsert_flag _ _ _ _ _ _ _ Hc Hu).
Qed.

(** X17.  Every method of the repository hands back a clean session when
    it is given one: whether it returns or raises, nothing is left waiting
    in the unit of work, so the next call starts from a flushed session. *)
Theorem methods_keep_session_clean :
  (∀ entity_id, keeps_clean (get_by_id cls entity_id))
  ∧ keeps_clean (get_all cls)
  ∧ (∀ filters order_by limit offset descending,
       keeps_clean (get_by_filters cls filters order_by limit offset descending))
  ∧ (∀ filters, keeps_clean (count cls filters))
  ∧ (∀ data, keeps_clean (create cls data))
  ∧ (∀ items, keeps_clean (bulk_create cls items))
  ∧ (∀ entity_id data, keeps_clean (update cls entity_id data))
  ∧ (∀ entity_id, keeps_clean (delete cls entity_id))
  ∧ (∀ filters, keeps_clean (delete_many cls filters))
  ∧ (∀ unique_fields data, keeps_clean (upsert cls unique_fields data))
  ∧ (∀ unique_fields items, keeps_clean (bulk_upsert cls unique_fields items))
  ∧ keeps_clean (commit cls)
  ∧ keeps_clean rollback.
Proof.
  split; [intros; apply keeps_clean_read, ro_get_by_id|].
  split; [apply keeps_clean_read, ro_get_all|].
  split; [intros; apply keeps_clean_read, ro_get_by_filters|].
  split; [intros; apply keeps_clean_read, ro_count|].
  split.
  { intros data. apply keeps_clean_write; [apply create_fails|].
    intros s e s' Hc Hcr. apply (create_ok _ _ _ _ _ Hc Hcr). }
  split.
  { intros items. apply keeps_clean_write; [apply bulk_create_fails|].
    intros s es s' Hc Hb. apply (bulk_create_ok _ _ _ _ _ Hc Hb). }
  split.
  { intros entity_id data. apply keeps_clean_write; [apply update_fails|].
    intros s r s'. apply update_ok_clean. }
  split.
  { intros entity_id. apply keeps_clean_write; [apply delete_fails|].
    intros s b s'. apply delete_ok_clean. }
  split.
  { intros filters. apply keeps_clean_write; [apply delete_many_fails|].
    intros s n s'. apply delete_many_ok_clean. }
  split.
  { intros unique_fields data. apply keeps_clean_write; [apply upsert_fails|].
    intros s [e c] s' Hc Hu. apply (upsert_flag _ _ _ _ _ _ _ Hc Hu). }
  split.
  { intros unique_fields items.
    apply keeps_clean_write; [apply bulk_upsert_fails|].
    intros s a s' Hc. unfold bulk_upsert, try_except.
    rewrite bulk_upsert_loop.
    destruct (for_each (upsert cls unique_fields) items s) as [[rs|x] s1] eqn:Hl.
    - intros [= _ <-]. eapply upserts_ok_clean; eassumption.
    - unfold rollback_and_raise, bind, session_rollback, raise. discriminate. }
  split.
  { apply keeps_clean_write; [apply commit_fails|].
    intros s a s' Hc. rewrite (commit_eq cls s Hc).
    destruct (next_fault s); [discriminate|].
    intros [= _ <-]. destruct Hc; split; simpl; assumption. }
  intros s _. split; reflexivity.
Qed.

End KeepsClean.

(** ** Empty batches and the entity [get_by_id] returns *)

Section Edges.

Variable cls : model_class.

(** X18.  An empty batch sends nothing to the store: on a clean session
    [bulk_create] of no item returns no entity and [bulk_upsert] of no item
    returns no entity and two counts of 0, and the session is untouched. *)
Theorem empty_batches unique_fields s :
  clean s →
  bulk_create cls [] s = (Ok [], s)
  ∧ bulk_upsert cls unique_fields [] s = (Ok ([], 0, 0), s).
Proof.
  intros Hc. split; [|reflexivity].
  unfold bulk_create, try_except. cbn [for_each]. unfold bind at 1.
  unfold ret at 1. unfold bind at 1.
  rewrite (session_flush_clean cls s Hc). reflexivity.
Qed.

(** X19.  What [get_by_id] returns on a clean session is a row of the
    table whose identifier is the one asked for, and the first such row. *)
Theorem get_by_id_returns_that_id entity_id s e s' :
  clean s →
  get_by_id cls entity_id s = (Ok (Some e), s') →
  e ∈ rows s ∧ pk e = Scalar (SInt entity_id)
  ∧ lookup_id entity_id (rows s) = Some e
  ∧ s' = advance s.
Proof.
  intros Hc. rewrite (get_by_id_eq cls _ _ Hc).
  destruct (next_fault s); [discriminate|].
  intros [= Hl <-]. destruct (lookup_id_some _ _ _ Hl) as [Hin Hpk].
  repeat split; assumption.
Qed.

End Edges.

(** ** Runs of the further properties *)

Lemma get_all_whole_table_witness :
  clean one_row_session
  ∧ get_all Configuracao one_row_session
    = (Ok [row_a], advance one_row_session).
Proof.
  split; [exact clean_one_row_session|].
  destruct (get_all_whole_table Configuracao one_row_session
              clean_one_row_session) as [_ H].
  rewrite H. compute_done.
Defined.

Lemma unknown_filter_key_witness :
  ({[ "cor" := Scalar (SStr "azul") ]} : dict) !! "cor"
  = Some (Scalar (SStr "azul"))
  ∧ hasattr Configuracao "cor" = false
  ∧ get_by_filters Configuracao {[ "cor" := Scalar (SStr "azul") ]}
                   None None None false one_row_session
    = (Err DatabaseError, one_row_session).
Proof.
  assert (Hk : ({[ "cor" := Scalar (SStr "azul") ]} : dict) !! "cor"
               = Some (Scalar (SStr "azul"))) by apply lookup_singleton_eq.
  assert (Hat : hasattr Configuracao "cor" = false) by compute_done.
  split; [exact Hk|]. split; [exact Hat|].
  apply (unknown_filter_key Configuracao _ _ _ None None None false
           one_row_session Hk Hat).
Defined.

Lemma create_unknown_key_witness :
  ({[ "cor" := Scalar (SStr "azul") ]} : dict) !! "cor"
  = Some (Scalar (SStr "azul"))
  ∧ hasattr Configuracao "cor" = false
  ∧ create Configuracao (inl {[ "cor" := Scalar (SStr "azul") ]})
           one_row_session
    = (Err DatabaseError, exec session_rollback one_row_session).
Proof.
  assert (Hk : ({[ "cor" := Scalar (SStr "azul") ]} : dict) !! "cor"
               = Some (Scalar (SStr "azul"))) by apply lookup_singleton_eq.
  assert (Hat : hasattr Configuracao "cor" = false) by compute_done.
  split; [exact Hk|]. split; [exact Hat|].
  apply (create_unknown_key Configuracao _ _ _ [] one_row_session Hk Hat).
Defined.

Lemma update_ignores_unknown_keys_witness :
  (∀ k v, ({[ "cor" := Scalar (SStr "azul") ]} : dict) !! k = Some v →
          hasattr Configuracao k = false)
  ∧ update Configuracao 1 {[ "cor" := Scalar (SStr "azul") ]} one_row_session
    = update Configuracao 1 ∅ one_row_session.
Proof.
  assert (H : ∀ k v, ({[ "cor" := Scalar (SStr "azul") ]} : dict) !! k = Some v →
                     hasattr Configuracao k = false).
  { intros k v Hk. apply lookup_singleton_Some in Hk as [<- _]. compute_done. }
  split; [exact H|].
  apply (update_ignores_unknown_keys Configuracao 1 _ one_row_session H).
Defined.

Lemma delete_many_empty_filter_witness :
  clean two_row_session ∧ healthy 2 two_row_session
  ∧ ∃ s', delete_many Configuracao ∅ two_row_session = (Ok 2, s')
          ∧ rows s' = [].
Proof.
  assert (Hh : healthy 2 two_row_session) by (apply healthy_nil; compute_done).
  split; [exact clean_two_row_session|]. split; [exact Hh|].
  destruct (delete_many_empty_filter Configuracao two_row_session
              clean_two_row_session Hh) as (s' & Hd & Hr & _).
  assert (Hn : Z.of_nat (length (rows two_row_session)) = 2) by compute_done.
  rewrite Hn in Hd. exists s'. split; assumption.
Defined.

Lemma upsert_twice_witness :
  clean empty_session
  ∧ unique_filters ["chave"] (cfg "a" "2") = unique_filters ["chave"] (cfg "a" "1")
  ∧ upsert Configuracao ["chave"] (cfg "a" "1") empty_session
    = (Ok (insert_row Configuracao 102 1 (cfg "a" "1"), true),
       exec (upsert Configuracao ["chave"] (cfg "a" "1")) empty_session)
  ∧ ∃ e s2,
      upsert Configuracao ["chave"] (cfg "a" "2")
             (exec (upsert Configuracao ["chave"] (cfg "a" "1")) empty_session)
      = (Ok (e, false), s2)
      ∧ e !! "valor" = Some (Scalar (SStr "2")).
Proof.
  assert (Hsame : unique_filters ["chave"] (cfg "a" "2")
                  = unique_filters ["chave"] (cfg "a" "1")) by compute_done.
  assert (Hu : upsert Configuracao ["chave"] (cfg "a" "1") empty_session
               = (Ok (insert_row Configuracao 102 1 (cfg "a" "1"), true),
                  exec (upsert Configuracao ["chave"] (cfg "a" "1")) empty_session))
    by compute_done.
  assert (Hscalar : ∀ f v, f ∈ ["chave"] → cfg "a" "1" !! f = Some v →
                           ∃ x, v = Scalar x ∧ x ≠ SNull).
  { intros f v Hf Hv. apply list_elem_of_singleton in Hf as ->.
    assert (Hc : cfg "a" "1" !! "chave" = Some (Scalar (SStr "a"))) by compute_done.
    rewrite Hc in Hv. injection Hv as <-. eexists. split; [reflexivity|discriminate]. }
  split; [exact clean_empty_session|]. split; [exact Hsame|]. split; [exact Hu|].
  pose proof (upsert_twice Configuracao ["chave"] (cfg "a" "1") (cfg "a" "2")
                empty_session _ _ clean_empty_session Hscalar Hsame Hu) as H.
  cbv zeta in H. destruct H as (_ & _ & Hok).
  match type of Hok with _ → ?c = Ok tt → _ =>
    assert (Hck : c = Ok tt) by compute_done end.
  destruct (Hok ltac:(apply healthy_nil; compute_done) Hck) as [s2 Hu2].
  eexists _, s2. split; [exact Hu2|].
  rewrite lookup_insert_ne by discriminate. rewrite set_fields_lookup.
  compute_done.
Defined.

Lemma update_then_get_by_id_witness :
  clean one_row_session
  ∧ update Configuracao 1 (cfg "a" "9") one_row_session
    = (Ok (Some (<["updated_at" := Scalar (STime 103)]>
                   (set_fields Configuracao (cfg "a" "9") row_a))),
       exec (update Configuracao 1 (cfg "a" "9")) one_row_session)
  ∧ cfg "a" "9" !! "id" = None
  ∧ get_by_id Configuracao 1
              (exec (update Configuracao 1 (cfg "a" "9")) one_row_session)
    = (Ok (Some (<["updated_at" := Scalar (STime 103)]>
                   (set_fields Configuracao (cfg "a" "9") row_a))),
       advance (exec (update Configuracao 1 (cfg "a" "9")) one_row_session)).
Proof.
  assert (Hu : update Configuracao 1 (cfg "a" "9") one_row_session
               = (Ok (Some (<["updated_at" := Scalar (STime 103)]>
                              (set_fields Configuracao (cfg "a" "9") row_a))),
                  exec (update Configuracao 1 (cfg "a" "9")) one_row_session))
    by compute_done.
  assert (Hid : cfg "a" "9" !! "id" = None) by compute_done.
  split; [exact clean_one_row_session|]. split; [exact Hu|]. split; [exact Hid|].
  apply (update_then_get_by_id Configuracao 1 (cfg "a" "9") one_row_session _ _
           clean_one_row_session Hu Hid).
  compute_done.
Defined.

Lemma delete_leaves_other_ids_witness :
  clean two_row_session
  ∧ delete Configuracao 1 two_row_session
    = (Ok true, exec (delete Configuracao 1) two_row_session)
  ∧ lookup_id 2 (rows (exec (delete Configuracao 1) two_row_session))
    = lookup_id 2 (rows two_row_session).
Proof.
  assert (Hd : delete Configuracao 1 two_row_session
               = (Ok true, exec (delete Configuracao 1) two_row_session))
    by compute_done.
  split; [exact clean_two_row_session|]. split; [exact Hd|].
  apply (delete_leaves_other_ids Configuracao 1 2 two_row_session _
           clean_two_row_session Hd).
  discriminate.
Defined.

Lemma commit_is_durable_witness :
  clean one_row_session
  ∧ commit Configuracao one_row_session
    = (Ok tt, exec (commit Configuracao) one_row_session)
  ∧ rows (exec rollback (exec (commit Configuracao) one_row_session))
    = rows one_row_session.
Proof.
  assert (Hcm : commit Configuracao one_row_session
                = (Ok tt, exec (commit Configuracao) one_row_session))
    by compute_done.
  split; [exact clean_one_row_session|]. split; [exact Hcm|].
  apply (commit_is_durable Configuracao one_row_session _
           clean_one_row_session Hcm).
Defined.



Lemma get_by_filters_result_bounds_witness :
  clean two_row_session ∧ next_fault two_row_session = false
  ∧ known Configuracao ∅
  ∧ ∃ l,
      get_by_filters Configuracao ∅ (Some "chave") (Some 1) None false
                     two_row_session
      = (Ok l, advance two_row_session)
      ∧ (length l ≤ 1)%nat.
Proof.
  assert (Hf : next_fault two_row_session = false) by compute_done.
  assert (Ho : ∀ f, Some "chave" = Some f → f ≠ "" →
                    hasattr Configuracao f = true).
  { intros f [= <-] _. compute_done. }
  split; [exact clean_two_row_session|]. split; [exact Hf|].
  split; [apply known_empty|].
  destruct (get_by_filters_result_bounds Configuracao ∅ (Some "chave") (Some 1)
              None false two_row_session clean_two_row_session Hf
              (known_empty _) Ho eq_refl eq_refl) as (l & Hg & _ & _ & Hlim).
  exists l. split; [exact Hg|]. apply (Hlim 1 eq_refl). discriminate.
Defined.


Lemma empty_batches_witness :
  clean one_row_session
  ∧ bulk_create Configuracao [] one_row_session = (Ok [], one_row_session)
  ∧ bulk_upsert Configuracao ["chave"] [] one_row_session
    = (Ok ([], 0, 0), one_row_session).
Proof.
  split; [exact clean_one_row_session|].
  apply (empty_batches Configuracao ["chave"] one_row_session
           clean_one_row_session).
Defined.

Lemma get_by_id_returns_that_id_witness :
  clean one_row_session
  ∧ get_by_id Configuracao 1 one_row_session
    = (Ok (Some row_a), advance one_row_session)
  ∧ row_a ∈ rows one_row_session ∧ pk row_a = Scalar (SInt 1).
Proof.
  assert (Hg : get_by_id Configuracao 1 one_row_session
               = (Ok (Some row_a), advance one_row_session)) by compute_done.
  split; [exact clean_one_row_session|]. split; [exact Hg|].
  destruct (get_by_id_returns_that_id Configuracao 1 one_row_session _ _
              clean_one_row_session Hg) as (Hin & Hpk & _).
  split; assumption.
Defined.
